(** * The x2017 virtual machine: execution engine

    A shallow embedding of [src/vm_x2017.c] (with [lib/vm_x2017.h]) and the
    properties of its calling convention, operand resolution and
    instruction dispatch.

    Bytes ([uint8_t]) are integers of [Z] reduced modulo 256 on every
    store; the two C arrays [ram] and [registers] are lists that are read
    and updated by index, and an access outside an array has no defined
    outcome.  [errx] ends the run with a diagnostic, and the machine as it
    was at that moment is kept in the outcome. *)

From Stdlib Require Import ZArith Lia String.
From stdpp Require Import base option list.

Local Open Scope Z_scope.

(** ** Data model *)

(** Addressing mode of an operand ([arg.type]). *)
Inductive arg_type : Set := VAL | REG | STACK | PTR.

(** An operand ([arg_t]): a mode and a byte. *)
Record arg_t : Set := { type : arg_type; value : Z }.

(** Opcodes, in the order of the [switch] of [run_instruction]. *)
Inductive opcode_t : Set := MOV | CAL | RET | REF | ADD | PRINT | NOT | EQU.

(** An instruction ([inst_t]). *)
Record inst_t : Set := { opcode : opcode_t; arg1 : arg_t; arg2 : arg_t }.

(** A loaded function ([func_t]); [size] counts its instructions. *)
Record func_t : Set :=
  { label : Z; frame_size : Z; size : Z; instructions : list inst_t }.

#[global] Instance arg_type_eq_dec : EqDecision arg_type.
Proof. solve_decision. Defined.

#[global] Instance opcode_eq_dec : EqDecision opcode_t.
Proof. solve_decision. Defined.

(** [RAM_SIZE] and [NUM_REGISTERS] of [lib/vm_x2017.h]. *)
Definition RAM_SIZE : Z := Z.shiftl 1 8.
Definition NUM_REGISTERS : Z := 8.

(** Conversion of a C [int] to [uint8_t]. *)
Definition u8 (z : Z) : Z := z mod 256.

(** The machine: the two arrays of [vm_x2017], and the lines written to the
    standard output by [PRINT], oldest first. *)
Record machine : Type :=
  { ram : list Z; registers : list Z; stdout : list Z }.

(** Outcome of a piece of the engine: it returns [a] and leaves the machine
    [m]; it calls [errx] with a format and its arguments while the machine
    is [m]; or it reads or writes outside an array. *)
Inductive result (A : Type) : Type :=
| Ok (a : A) (m : machine)
| Fatal (fmt : string) (args : list Z) (m : machine)
| Undefined.

Arguments Ok {A} a m.
Arguments Fatal {A} fmt args m.
Arguments Undefined {A}.

(** Code over the machine. *)
Definition M (A : Type) : Type := machine -> result A.

#[global] Instance M_ret : MRet M := fun A a m => Ok a m.

#[global] Instance M_bind : MBind M := fun A B f c m =>
  match c m with
  | Ok a m' => f a m'
  | Fatal fmt args m' => Fatal fmt args m'
  | Undefined => Undefined
  end.

(** [a[i]] for a C array held in a list. *)
Definition index {A : Type} (l : list A) (i : Z) : option A :=
  if bool_decide (0 <= i) then l !! Z.to_nat i else None.

Definition read_ram (a : Z) : M Z := fun m =>
  match index (ram m) a with
  | Some v => Ok v m
  | None => Undefined
  end.

Definition write_ram (a v : Z) : M unit := fun m =>
  match index (ram m) a with
  | Some _ =>
      Ok tt {| ram := <[Z.to_nat a := u8 v]> (ram m);
               registers := registers m; stdout := stdout m |}
  | None => Undefined
  end.

Definition read_reg (i : Z) : M Z := fun m =>
  match index (registers m) i with
  | Some v => Ok v m
  | None => Undefined
  end.

Definition write_reg (i v : Z) : M unit := fun m =>
  match index (registers m) i with
  | Some _ =>
      Ok tt {| ram := ram m;
               registers := <[Z.to_nat i := u8 v]> (registers m);
               stdout := stdout m |}
  | None => Undefined
  end.

Definition errx {A : Type} (fmt : string) (args : list Z) : M A :=
  fun m => Fatal fmt args m.

(** [printf("%u\n", v)]. *)
Definition printf (v : Z) : M unit := fun m =>
  Ok tt {| ram := ram m; registers := registers m;
           stdout := stdout m ++ [v] |}.

(** Modelled from the spec: [parser.h], which [lib/vm_x2017.h] includes, is
    not among the sources.  Its capacity constants are fields of a
    configuration (the spec leaves their values open).  The macros
    [STACK_PTR] and [PROG_CTR] are read and assigned in functions that are
    passed [ram] and [registers] only: they are taken to name two slots of
    the register file, [SP_REG] and [PC_REG], which are fields as well.
    [STACK_LOC_EXPR sp x] is the address expression of [STACK_LOC(x)],
    which resolves the stack symbol [x] against the current stack pointer
    [sp]. *)
Record config : Type :=
  { MAX_FUNCTIONS : Z;
    MAX_INSTRUCTIONS : Z;
    MAIN_FUNC : Z;
    STACK_START : Z;
    STACK_MAX : Z;
    SP_REG : Z;
    PC_REG : Z;
    STACK_LOC_EXPR : Z -> Z -> Z }.

Section Engine.

Variable cfg : config.

(** Modelled from the spec: the macros of [parser.h] over [ram] and
    [registers].  The function-address table is indexed by the label (lines
    29-30 initialise [ram[i]] for [i < MAX_FUNCTIONS] as the addresses),
    the frame-size table follows it (line 203 reads the frame size at
    [ram[MAX_FUNCTIONS + label]]). *)
Definition STACK_PTR : M Z := read_reg (SP_REG cfg).
Definition set_STACK_PTR (v : Z) : M unit := write_reg (SP_REG cfg) v.
Definition PROG_CTR : M Z := read_reg (PC_REG cfg).
Definition set_PROG_CTR (v : Z) : M unit := write_reg (PC_REG cfg) v.
Definition INSTR_ADDR (l : Z) : M Z := read_ram l.
Definition set_INSTR_ADDR (l v : Z) : M unit := write_ram l v.
Definition FRAME_SIZE (l : Z) : M Z := read_ram (MAX_FUNCTIONS cfg + l).
Definition set_FRAME_SIZE (l v : Z) : M unit := write_ram (MAX_FUNCTIONS cfg + l) v.
Definition STACK_LOC (x : Z) : M Z := sp ← STACK_PTR; mret (STACK_LOC_EXPR cfg sp x).

(** ** [call_function] *)

Definition call_function (label : Z) : M unit :=
  fs ← read_ram (MAX_FUNCTIONS cfg + label);
  write_reg 4 (STACK_MAX cfg - fs - 4);;
  sp ← STACK_PTR;
  r4 ← read_reg 4;
  if bool_decide (sp > r4)
  then errx "Stack overflow detected when trying to call function %d" [label]
  else
    sp ← STACK_PTR;
    fs ← FRAME_SIZE label;
    write_reg 4 (sp + 2 + fs);;
    r4 ← read_reg 4;
    write_reg 5 (r4 + 1);;
    r5 ← read_reg 5;
    sp ← STACK_PTR;
    write_ram r5 sp;;
    r5 ← read_reg 5;
    write_reg 5 (r5 + 1);;
    r5 ← read_reg 5;
    pc ← PROG_CTR;
    write_ram r5 pc;;
    r4 ← read_reg 4;
    set_STACK_PTR r4;;
    a ← INSTR_ADDR label;
    set_PROG_CTR a.

(** ** [arg_value] *)

Definition arg_value (arg : arg_t) : M Z :=
  match type arg with
  | VAL => mret (u8 (value arg))
  | REG => read_reg (value arg)
  | STACK =>
      a ← STACK_LOC (value arg);
      write_reg 4 a;;
      r4 ← read_reg 4;
      read_ram r4
  | PTR =>
      a ← STACK_LOC (value arg);
      write_reg 4 a;;
      r4 ← read_reg 4;
      v ← read_ram r4;
      write_reg 5 v;;
      r5 ← read_reg 5;
      read_ram r5
  end.

(** ** [mov] *)

Definition mov (arg : arg_t) : M unit :=
  match type arg with
  | REG =>
      r4 ← read_reg 4;
      write_reg (value arg) r4
  | STACK =>
      a ← STACK_LOC (value arg);
      write_reg 5 a;;
      r5 ← read_reg 5;
      r4 ← read_reg 4;
      write_ram r5 r4
  | PTR =>
      a ← STACK_LOC (value arg);
      write_reg 5 a;;
      r5 ← read_reg 5;
      v ← read_ram r5;
      write_reg 5 v;;
      r5 ← read_reg 5;
      r4 ← read_reg 4;
      write_ram r5 r4
  | VAL => mret tt
  end.

(** ** [run_instruction] *)

Definition run_instruction (inst : inst_t) : M Z :=
  match opcode inst with
  | MOV =>
      if bool_decide (type (arg1 inst) = VAL)
      then errx "first argument to MOV must not be value typed." []
      else
        v ← arg_value (arg2 inst);
        write_reg 4 v;;
        mov (arg1 inst);;
        mret 0
  | CAL =>
      if bool_decide (type (arg1 inst) ≠ VAL)
      then errx "first argument to CAL must be value typed." []
      else
        call_function (u8 (value (arg1 inst)));;
        mret 0
  | RET =>
      sp ← STACK_PTR;
      write_reg 4 (sp + 1);;
      r4 ← read_reg 4;
      fp ← read_ram r4;
      if bool_decide (fp = 0)
      then mret 1
      else
        r4 ← read_reg 4;
        fp ← read_ram r4;
        set_STACK_PTR fp;;
        r4 ← read_reg 4;
        write_reg 4 (r4 + 1);;
        r4 ← read_reg 4;
        ra ← read_ram r4;
        set_PROG_CTR ra;;
        mret 0
  | REF =>
      if bool_decide (type (arg2 inst) ≠ STACK ∧ type (arg2 inst) ≠ PTR)
      then errx "second argument to REF must be stack or pointer typed." []
      else
        a ← STACK_LOC (value (arg2 inst));
        write_reg 4 a;;
        (if bool_decide (type (arg2 inst) = PTR)
         then r4 ← read_reg 4; v ← read_ram r4; write_reg 4 v
         else mret tt);;
        mov (arg1 inst);;
        mret 0
  | ADD =>
      if bool_decide (type (arg1 inst) ≠ REG ∨ type (arg2 inst) ≠ REG)
      then errx "both arguments to ADD must be register typed." []
      else
        a ← read_reg (value (arg1 inst));
        b ← read_reg (value (arg2 inst));
        write_reg (value (arg1 inst)) (a + b);;
        mret 0
  | PRINT =>
      v ← arg_value (arg1 inst);
      write_reg 4 v;;
      r4 ← read_reg 4;
      printf r4;;
      mret 0
  | NOT =>
      if bool_decide (type (arg1 inst) ≠ REG)
      then errx "first argument to NOT must be register typed." []
      else
        a ← read_reg (value (arg1 inst));
        write_reg (value (arg1 inst)) (Z.lnot a);;
        mret 0
  | EQU =>
      if bool_decide (type (arg1 inst) ≠ REG)
      then errx "first argument to EQU must be register typed." []
      else
        a ← read_reg (value (arg1 inst));
        write_reg (value (arg1 inst)) (if bool_decide (a = 0) then 1 else 0);;
        mret 0
  end.

(** ** [vm_x2017] *)

(** A counted [for] loop over the values [l] of its index, threading the
    local variables [s] of the enclosing function. *)
Fixpoint for_loop {S : Type} (l : list Z) (body : Z -> S -> M S) (s : S) : M S :=
  match l with
  | [] => mret s
  | i :: l' => s' ← body i s; for_loop l' body s'
  end.

Definition undefined {A : Type} : M A := fun _ => Undefined.

(** Lines 48-49: the instructions of [func] are copied to the flat array
    [instrs] from [instr_idx] on. *)
Definition copy_instructions (func : func_t)
    (st : list inst_t * Z) : M (list inst_t * Z) :=
  for_loop (seqZ 0 (size func))
    (fun j '(instrs, instr_idx) =>
       match index (instructions func) j, index instrs instr_idx with
       | Some i, Some _ =>
           mret (<[Z.to_nat instr_idx := i]> instrs, u8 (instr_idx + 1))
       | _, _ => undefined
       end) st.

(** Lines 37-52: one iteration of the loop over the function table. *)
Definition load_function (functions : list func_t) (i : Z)
    (st : list inst_t * Z) : M (list inst_t * Z) :=
  match index functions (MAX_FUNCTIONS cfg - i - 1) with
  | None => undefined
  | Some func =>
      if bool_decide (size func = 0) then mret st
      else
        set_INSTR_ADDR (label func) (snd st);;
        match index (instructions func) (size func - 1) with
        | None => undefined
        | Some last =>
            if bool_decide (opcode last ≠ RET)
            then errx "No return instruction found at end of function %d"
                      [label func]
            else
              st' ← copy_instructions func st;
              set_FRAME_SIZE (label func) (frame_size func);;
              mret st'
        end
  end.

(** Lines 23-61: the tables and the entry frame are laid out.  The arrays
    are not initialised in the source: the machine the layout starts from
    and the first content [instrs0] of the flat instruction array are
    arbitrary ([instrs0] has the [MAX_INSTRUCTIONS_TOTAL] entries of the
    array).  It returns the flat instruction array. *)
Definition bootstrap (functions : list func_t) (instrs0 : list inst_t)
    : M (list inst_t) :=
  for_loop (seqZ 0 (MAX_FUNCTIONS cfg))
    (fun i _ => write_ram i (MAX_INSTRUCTIONS cfg)) tt;;
  st ← for_loop (seqZ 0 (MAX_FUNCTIONS cfg)) (load_function functions)
         (instrs0, 0);
  a ← INSTR_ADDR (MAIN_FUNC cfg);
  set_PROG_CTR a;;
  pc ← PROG_CTR;
  if bool_decide (pc = 255)
  then errx "No main function found" []
  else
    fs ← FRAME_SIZE (MAIN_FUNC cfg);
    set_STACK_PTR (STACK_START cfg + fs);;
    sp ← STACK_PTR;
    write_ram (sp + 1) 0;;
    mret (fst st).

(** Line 63, the condition of the [while]: the instruction at the program
    counter is fetched, the counter is advanced, the instruction is run. *)
Definition step (instrs : list inst_t) : M Z :=
  pc ← PROG_CTR;
  set_PROG_CTR (pc + 1);;
  match index instrs pc with
  | Some inst => run_instruction inst
  | None => undefined
  end.

(** Line 63, the [while] itself, for at most [fuel] instructions; [None]
    when the run has not ended by then. *)
Fixpoint run (fuel : nat) (instrs : list inst_t) (m : machine)
    : option (result unit) :=
  match fuel with
  | O => None
  | S fuel' =>
      match step instrs m with
      | Ok r m' => if bool_decide (r = 0) then run fuel' instrs m'
                   else Some (Ok tt m')
      | Fatal fmt args m' => Some (Fatal fmt args m')
      | Undefined => Some Undefined
      end
  end.

Definition vm_x2017 (fuel : nat) (functions : list func_t)
    (instrs0 : list inst_t) (m : machine) : option (result unit) :=
  match bootstrap functions instrs0 m with
  | Ok instrs m' => run fuel instrs m'
  | Fatal fmt args m' => Some (Fatal fmt args m')
  | Undefined => Some Undefined
  end.

(** ** Reading the machine *)

(** The content of a register and of a RAM cell. *)
Definition reg (m : machine) (i : Z) : Z := default 0 (index (registers m) i).
Definition mem (m : machine) (a : Z) : Z := default 0 (index (ram m) a).

(** The stack pointer and the program counter of a machine. *)
Definition sp_of (m : machine) : Z := reg m (SP_REG cfg).
Definition pc_of (m : machine) : Z := reg m (PC_REG cfg).

(** The frame size recorded for a label. *)
Definition frame_size_of (m : machine) (l : Z) : Z :=
  mem m (MAX_FUNCTIONS cfg + l).

Definition upd_reg (m : machine) (i v : Z) : machine :=
  {| ram := ram m; registers := <[Z.to_nat i := u8 v]> (registers m);
     stdout := stdout m |}.

Definition upd_mem (m : machine) (a v : Z) : machine :=
  {| ram := <[Z.to_nat a := u8 v]> (ram m); registers := registers m;
     stdout := stdout m |}.

Definition byte (v : Z) : Prop := 0 <= v < 256.

(** The arrays have their declared sizes and hold bytes. *)
Definition wf (m : machine) : Prop :=
  length (ram m) = Z.to_nat RAM_SIZE ∧
  length (registers m) = Z.to_nat NUM_REGISTERS ∧
  Forall byte (ram m) ∧ Forall byte (registers m).

(** The stack pointer and the program counter are two registers, and
    neither is one of the scratch registers 4 and 5. *)
Definition slots_ok : Prop :=
  0 <= SP_REG cfg < NUM_REGISTERS ∧ 0 <= PC_REG cfg < NUM_REGISTERS ∧
  SP_REG cfg ≠ PC_REG cfg ∧
  SP_REG cfg ≠ 4 ∧ SP_REG cfg ≠ 5 ∧ PC_REG cfg ≠ 4 ∧ PC_REG cfg ≠ 5.

End Engine.

#[global] Instance byte_dec (v : Z) : Decision (byte v).
Proof. unfold byte. apply _. Defined.

#[global] Instance wf_dec (m : machine) : Decision (wf m).
Proof. unfold wf. apply _. Defined.

#[global] Instance slots_ok_dec (cfg : config) : Decision (slots_ok cfg).
Proof. unfold slots_ok. apply _. Defined.

(** ** A configuration and machines for the examples *)

(** Modelled from the spec: a configuration with eight functions, the two
    tables in the first sixteen bytes of RAM, the stack above them up to
    the last byte, the stack pointer in register 6 and the program counter
    in register 7, and the symbols of a frame laid out downwards from the
    stack pointer.  The values are an instance for the examples; the
    theorems hold for every configuration. *)
Definition sample_config : config :=
  {| MAX_FUNCTIONS := 8;
     MAX_INSTRUCTIONS := 255;
     MAIN_FUNC := 0;
     STACK_START := 16;
     STACK_MAX := 255;
     SP_REG := 6;
     PC_REG := 7;
     STACK_LOC_EXPR := fun sp x => sp - x |}.

(** A RAM of zeros but for the cells listed. *)
Definition ram_of (cells : list (nat * Z)) : list Z :=
  foldr (fun c r => <[fst c := snd c]> r) (replicate 256 0) cells.

(** Function 0 starts at instruction 0 and has no locals, function 1 starts
    at instruction 3 and has one; the stack pointer is 16 and the program
    counter 1, as after the fetch of a [CAL] at instruction 0. *)
Definition sample_machine : machine :=
  {| ram := ram_of [(1%nat, 3); (9%nat, 1)];
     registers := [0; 0; 0; 0; 0; 0; 16; 1];
     stdout := [] |}.


(** [CAL 1]. *)
Definition sample_call : inst_t :=
  {| opcode := CAL;
     arg1 := {| type := VAL; value := 1 |};
     arg2 := {| type := VAL; value := 0 |} |}.

(** [RET]; the operands are not used. *)
Definition sample_ret : inst_t :=
  {| opcode := RET;
     arg1 := {| type := VAL; value := 0 |};
     arg2 := {| type := VAL; value := 0 |} |}.

(** [CAL 2], a call of a function with a frame of 254 bytes. *)
Definition sample_call_wide : inst_t :=
  {| opcode := CAL;
     arg1 := {| type := VAL; value := 2 |};
     arg2 := {| type := VAL; value := 0 |} |}.

(** [ADD REG 0, REG 1]. *)
Definition sample_add : inst_t :=
  {| opcode := ADD;
     arg1 := {| type := REG; value := 0 |};
     arg2 := {| type := REG; value := 1 |} |}.

(** [MOV VAL 1, VAL 2]: the first operand of [MOV] must not be a literal. *)
Definition sample_bad_mov : inst_t :=
  {| opcode := MOV;
     arg1 := {| type := VAL; value := 1 |};
     arg2 := {| type := VAL; value := 2 |} |}.

(** [REF VAL 3, STACK 0]. *)
Definition sample_ref : inst_t :=
  {| opcode := REF;
     arg1 := {| type := VAL; value := 3 |};
     arg2 := {| type := STACK; value := 0 |} |}.

(** The flat instruction array of a program of two functions: function 0
    calls function 1, prints register 0 and returns; function 1 stores 7
    in its local and returns. *)
Definition sample_program : list inst_t :=
  [ sample_call;
    {| opcode := PRINT; arg1 := {| type := REG; value := 0 |};
       arg2 := {| type := VAL; value := 0 |} |};
    sample_ret;
    {| opcode := MOV; arg1 := {| type := STACK; value := 0 |};
       arg2 := {| type := VAL; value := 7 |} |};
    sample_ret ].

(** The machine at the start of [sample_program], as the bootstrap leaves
    it: the program counter at instruction 0, the stack pointer at 16, the
    sentinel in the header of the entry frame. *)
Definition sample_start : machine :=
  {| ram := ram_of [(1%nat, 3); (9%nat, 1); (17%nat, 0)];
     registers := [0; 0; 0; 0; 0; 0; 16; 0];
     stdout := [] |}.

(** The machine that a step of the loop leaves, whatever its outcome. *)
Definition after_step (cfg : config) (instrs : list inst_t) (m : machine)
    : machine :=
  match step cfg instrs m with
  | Ok _ m' => m'
  | Fatal _ _ m' => m'
  | Undefined => m
  end.

(** [sample_start] after the call, and after the store in the callee. *)
Definition sample_called : machine :=
  after_step sample_config sample_program sample_start.
Definition sample_stored : machine :=
  after_step sample_config sample_program sample_called.

(** [sample_machine] with the stack pointer at 253, two bytes from the end
    of the stack. *)
Definition sample_full : machine :=
  {| ram := ram_of [(1%nat, 3); (9%nat, 1)];
     registers := [0; 0; 0; 0; 0; 0; 253; 1];
     stdout := [] |}.

(** [sample_machine] with a frame of 254 bytes recorded for function 2. *)
Definition sample_wide : machine :=
  {| ram := ram_of [(1%nat, 3); (9%nat, 1); (10%nat, 254)];
     registers := [0; 0; 0; 0; 0; 0; 16; 1];
     stdout := [] |}.

(** [sample_machine] with 200 and 100 in registers 0 and 1. *)
Definition sample_operands : machine :=
  {| ram := ram_of [(1%nat, 3); (9%nat, 1); (16%nat, 40); (40%nat, 9)];
     registers := [200; 100; 0; 0; 0; 0; 16; 1];
     stdout := [] |}.

(** The function table of the program that prints 5: only function 0 is
    present. *)
Definition sample_functions : list func_t :=
  {| label := 0; frame_size := 0; size := 3;
     instructions :=
       [ {| opcode := MOV; arg1 := {| type := REG; value := 0 |};
            arg2 := {| type := VAL; value := 5 |} |};
         {| opcode := PRINT; arg1 := {| type := REG; value := 0 |};
            arg2 := {| type := VAL; value := 0 |} |};
         sample_ret ] |}
  :: replicate 7 {| label := 0; frame_size := 0; size := 0; instructions := [] |}.

(** Arrays as [vm_x2017] may find them before it initialises anything. *)
Definition sample_blank : machine :=
  {| ram := replicate 256 0; registers := replicate 8 0; stdout := [] |}.

(** ** Arrays, bytes and well-formed machines *)

Lemma u8_byte (z : Z) : 0 <= u8 z < 256.
Proof. unfold u8. apply Z.mod_pos_bound. lia. Qed.

Lemma u8_small (z : Z) : 0 <= z < 256 -> u8 z = z.
Proof. intros H. unfold u8. apply Z.mod_small. exact H. Qed.

Lemma u8_idem (z : Z) : u8 (u8 z) = u8 z.
Proof. unfold u8. apply Z.mod_mod. lia. Qed.

(** Arithmetic modulo 256. *)
Ltac u8_lia := unfold u8 in *; Z.to_euclidean_division_equations; lia.

Lemma index_is_Some {A : Type} (l : list A) (i : Z) :
  0 <= i < Z.of_nat (length l) -> is_Some (index l i).
Proof.
  intros [H0 H1]. unfold index. rewrite bool_decide_eq_true_2 by exact H0.
  apply lookup_lt_is_Some. lia.
Qed.

Lemma index_None {A : Type} (l : list A) (i : Z) :
  ¬ (0 <= i < Z.of_nat (length l)) -> index l i = None.
Proof.
  intros H. unfold index. case_bool_decide; [|reflexivity].
  apply lookup_ge_None. lia.
Qed.

Lemma index_insert_eq {A : Type} (l : list A) (i : Z) (x : A) :
  0 <= i < Z.of_nat (length l) -> index (<[Z.to_nat i := x]> l) i = Some x.
Proof.
  intros [H0 H1]. unfold index. rewrite bool_decide_eq_true_2 by exact H0.
  apply list_lookup_insert_eq. lia.
Qed.

Lemma index_insert_ne {A : Type} (l : list A) (i j : Z) (x : A) :
  0 <= i -> i ≠ j -> index (<[Z.to_nat i := x]> l) j = index l j.
Proof.
  intros H0 Hne. unfold index. case_bool_decide; [|reflexivity].
  apply list_lookup_insert_ne. lia.
Qed.

Lemma index_byte (l : list Z) (i : Z) :
  Forall byte l -> byte (default 0 (index l i)).
Proof.
  intros Hl. unfold index. case_bool_decide; [|simpl; unfold byte; lia].
  destruct (l !! Z.to_nat i) as [v|] eqn:E; simpl; [|unfold byte; lia].
  eapply Forall_lookup_1; eassumption.
Qed.

Lemma Forall_byte_insert (l : list Z) (n : nat) (v : Z) :
  Forall byte l -> Forall byte (<[n := u8 v]> l).
Proof. intros Hl. apply Forall_insert; [exact Hl | apply u8_byte]. Qed.

Lemma wf_upd_reg (m : machine) (i v : Z) : wf m -> wf (upd_reg m i v).
Proof.
  intros (Hr & Hg & Br & Bg). unfold wf, upd_reg; simpl.
  rewrite length_insert. auto using Forall_byte_insert.
Qed.

Lemma wf_upd_mem (m : machine) (a v : Z) : wf m -> wf (upd_mem m a v).
Proof.
  intros (Hr & Hg & Br & Bg). unfold wf, upd_mem; simpl.
  rewrite length_insert. auto using Forall_byte_insert.
Qed.

Lemma reg_byte (m : machine) (i : Z) : wf m -> 0 <= reg m i < 256.
Proof. intros (_ & _ & _ & Bg). apply (index_byte _ i Bg). Qed.

Lemma mem_byte (m : machine) (a : Z) : wf m -> 0 <= mem m a < 256.
Proof. intros (_ & _ & Br & _). apply (index_byte _ a Br). Qed.

Lemma reg_upd_reg_eq (m : machine) (i v : Z) :
  wf m -> 0 <= i < 8 -> reg (upd_reg m i v) i = u8 v.
Proof.
  intros (_ & Hg & _) Hi. unfold reg, upd_reg; simpl.
  rewrite index_insert_eq; [reflexivity|]. rewrite Hg. change (Z.to_nat NUM_REGISTERS) with 8%nat. lia.
Qed.

Lemma reg_upd_reg_ne (m : machine) (i j v : Z) :
  0 <= i -> i ≠ j -> reg (upd_reg m i v) j = reg m j.
Proof.
  intros Hi Hne. unfold reg, upd_reg; simpl.
  rewrite index_insert_ne by assumption. reflexivity.
Qed.

Lemma mem_upd_mem_eq (m : machine) (a v : Z) :
  wf m -> 0 <= a < 256 -> mem (upd_mem m a v) a = u8 v.
Proof.
  intros (Hr & _) Ha. unfold mem, upd_mem; simpl.
  rewrite index_insert_eq; [reflexivity|]. rewrite Hr. change (Z.to_nat RAM_SIZE) with 256%nat. lia.
Qed.

Lemma mem_upd_mem_ne (m : machine) (a b v : Z) :
  0 <= a -> a ≠ b -> mem (upd_mem m a v) b = mem m b.
Proof.
  intros Ha Hne. unfold mem, upd_mem; simpl.
  rewrite index_insert_ne by assumption. reflexivity.
Qed.

Lemma reg_upd_mem (m : machine) (a v i : Z) : reg (upd_mem m a v) i = reg m i.
Proof. reflexivity. Qed.

Lemma mem_upd_reg (m : machine) (i v a : Z) : mem (upd_reg m i v) a = mem m a.
Proof. reflexivity. Qed.

(** ** Running the code of the engine on a well-formed machine *)

Lemma bind_assoc {A B C : Type} (c : M A) (f : A -> M B) (k : B -> M C)
    (m : machine) :
  ((c ≫= f) ≫= k) m = (c ≫= (fun x => f x ≫= k)) m.
Proof. unfold mbind, M_bind. destruct (c m); reflexivity. Qed.

Lemma bind_ret {A B : Type} (a : A) (k : A -> M B) (m : machine) :
  (mret a ≫= k) m = k a m.
Proof. reflexivity. Qed.

Lemma bind_errx {A B : Type} fmt args (k : A -> M B) (m : machine) :
  (errx fmt args ≫= k) m = Fatal fmt args m.
Proof. reflexivity. Qed.

Lemma read_reg_ok (i : Z) (m : machine) :
  wf m -> 0 <= i < 8 -> read_reg i m = Ok (reg m i) m.
Proof.
  intros (_ & Hg & _) Hi. unfold read_reg, reg.
  destruct (index_is_Some (registers m) i) as [v ->]; [|reflexivity].
  rewrite Hg. change (Z.to_nat NUM_REGISTERS) with 8%nat. lia.
Qed.

Lemma write_reg_ok (i v : Z) (m : machine) :
  wf m -> 0 <= i < 8 -> write_reg i v m = Ok tt (upd_reg m i v).
Proof.
  intros (_ & Hg & _) Hi. unfold write_reg.
  destruct (index_is_Some (registers m) i) as [w ->]; [|reflexivity].
  rewrite Hg. change (Z.to_nat NUM_REGISTERS) with 8%nat. lia.
Qed.

Lemma read_ram_ok (a : Z) (m : machine) :
  wf m -> 0 <= a < 256 -> read_ram a m = Ok (mem m a) m.
Proof.
  intros (Hr & _) Ha. unfold read_ram, mem.
  destruct (index_is_Some (ram m) a) as [v ->]; [|reflexivity].
  rewrite Hr. change (Z.to_nat RAM_SIZE) with 256%nat. lia.
Qed.

Lemma write_ram_ok (a v : Z) (m : machine) :
  wf m -> 0 <= a < 256 -> write_ram a v m = Ok tt (upd_mem m a v).
Proof.
  intros (Hr & _) Ha. unfold write_ram.
  destruct (index_is_Some (ram m) a) as [w ->]; [|reflexivity].
  rewrite Hr. change (Z.to_nat RAM_SIZE) with 256%nat. lia.
Qed.

Lemma read_reg_out (i : Z) (m : machine) :
  wf m -> ¬ (0 <= i < 8) -> read_reg i m = Undefined.
Proof.
  intros (_ & Hg & _) Hi. unfold read_reg. rewrite index_None; [reflexivity|].
  rewrite Hg. change (Z.to_nat NUM_REGISTERS) with 8%nat. lia.
Qed.

Lemma read_ram_out (a : Z) (m : machine) :
  wf m -> ¬ (0 <= a < 256) -> read_ram a m = Undefined.
Proof.
  intros (Hr & _) Ha. unfold read_ram. rewrite index_None; [reflexivity|].
  rewrite Hr. change (Z.to_nat RAM_SIZE) with 256%nat. lia.
Qed.

Lemma bind_read_reg {B : Type} (i : Z) (k : Z -> M B) (m : machine) :
  wf m -> 0 <= i < 8 -> (read_reg i ≫= k) m = k (reg m i) m.
Proof.
  intros Hm Hi. unfold mbind, M_bind. rewrite read_reg_ok by assumption.
  reflexivity.
Qed.

Lemma bind_write_reg {B : Type} (i v : Z) (k : unit -> M B) (m : machine) :
  wf m -> 0 <= i < 8 -> (write_reg i v ≫= k) m = k tt (upd_reg m i v).
Proof.
  intros Hm Hi. unfold mbind, M_bind. rewrite write_reg_ok by assumption.
  reflexivity.
Qed.

Lemma bind_read_ram {B : Type} (a : Z) (k : Z -> M B) (m : machine) :
  wf m -> 0 <= a < 256 -> (read_ram a ≫= k) m = k (mem m a) m.
Proof.
  intros Hm Ha. unfold mbind, M_bind. rewrite read_ram_ok by assumption.
  reflexivity.
Qed.

Lemma bind_write_ram {B : Type} (a v : Z) (k : unit -> M B) (m : machine) :
  wf m -> 0 <= a < 256 -> (write_ram a v ≫= k) m = k tt (upd_mem m a v).
Proof.
  intros Hm Ha. unfold mbind, M_bind. rewrite write_ram_ok by assumption.
  reflexivity.
Qed.

(** ** Well-formedness is kept by the engine *)

(** Whatever the code [c] does to a well-formed machine, the machine it
    leaves (or aborts with) is well-formed. *)
Definition keeps_wf {A : Type} (c : M A) : Prop :=
  ∀ m, wf m ->
    match c m with
    | Ok _ m' => wf m'
    | Fatal _ _ m' => wf m'
    | Undefined => True
    end.

Lemma keeps_wf_ret {A : Type} (a : A) : keeps_wf (mret a).
Proof. intros m Hm. exact Hm. Qed.

Lemma keeps_wf_bind {A B : Type} (c : M A) (k : A -> M B) :
  keeps_wf c -> (∀ a, keeps_wf (k a)) -> keeps_wf (c ≫= k).
Proof.
  intros Hc Hk m Hm. specialize (Hc m Hm). unfold mbind, M_bind.
  destruct (c m) as [a m1| |]; [apply Hk; exact Hc | exact Hc | exact I].
Qed.

Lemma keeps_wf_errx {A : Type} fmt args : keeps_wf (@errx A fmt args).
Proof. intros m Hm. exact Hm. Qed.

Lemma keeps_wf_undefined {A : Type} : keeps_wf (@undefined A).
Proof. intros m Hm. exact I. Qed.

Lemma keeps_wf_read_reg (i : Z) : keeps_wf (read_reg i).
Proof. intros m Hm. unfold read_reg. destruct (index _ _); [exact Hm | exact I]. Qed.

Lemma keeps_wf_read_ram (a : Z) : keeps_wf (read_ram a).
Proof. intros m Hm. unfold read_ram. destruct (index _ _); [exact Hm | exact I]. Qed.

Lemma keeps_wf_write_reg (i v : Z) : keeps_wf (write_reg i v).
Proof.
  intros m Hm. unfold write_reg. destruct (index _ _); [|exact I].
  apply (wf_upd_reg m i v Hm).
Qed.

Lemma keeps_wf_write_ram (a v : Z) : keeps_wf (write_ram a v).
Proof.
  intros m Hm. unfold write_ram. destruct (index _ _); [|exact I].
  apply (wf_upd_mem m a v Hm).
Qed.

Lemma keeps_wf_printf (v : Z) : keeps_wf (printf v).
Proof. intros m Hm. exact Hm. Qed.

Lemma keeps_wf_for_loop {S : Type} (l : list Z) (body : Z -> S -> M S) (s : S) :
  (∀ i s', keeps_wf (body i s')) -> keeps_wf (for_loop l body s).
Proof.
  intros Hb. revert s. induction l as [|i l IH]; intros s; simpl.
  - apply keeps_wf_ret.
  - apply keeps_wf_bind; [apply Hb | intros s'; apply IH].
Qed.

Ltac keeps_wf_tac :=
  repeat first
    [ apply keeps_wf_ret | apply keeps_wf_errx | apply keeps_wf_undefined
    | apply keeps_wf_read_reg | apply keeps_wf_read_ram
    | apply keeps_wf_write_reg | apply keeps_wf_write_ram
    | apply keeps_wf_printf
    | apply keeps_wf_bind; [|intros ?]
    | apply keeps_wf_for_loop; intros ? ?
    | case_bool_decide
    | assumption ].

Lemma keeps_wf_call_function (cfg : config) (l : Z) :
  keeps_wf (call_function cfg l).
Proof.
  unfold call_function, STACK_PTR, set_STACK_PTR, PROG_CTR, set_PROG_CTR,
    FRAME_SIZE, INSTR_ADDR. keeps_wf_tac.
Qed.

Lemma keeps_wf_arg_value (cfg : config) (arg : arg_t) :
  keeps_wf (arg_value cfg arg).
Proof.
  unfold arg_value, STACK_LOC, STACK_PTR. destruct (type arg); keeps_wf_tac.
Qed.

Lemma keeps_wf_mov (cfg : config) (arg : arg_t) : keeps_wf (mov cfg arg).
Proof.
  unfold mov, STACK_LOC, STACK_PTR. destruct (type arg); keeps_wf_tac.
Qed.

Lemma keeps_wf_run_instruction (cfg : config) (inst : inst_t) :
  keeps_wf (run_instruction cfg inst).
Proof.
  pose proof (keeps_wf_call_function cfg).
  pose proof (keeps_wf_arg_value cfg).
  pose proof (keeps_wf_mov cfg).
  unfold run_instruction, STACK_LOC, STACK_PTR, set_STACK_PTR, set_PROG_CTR.
  destruct (opcode inst); keeps_wf_tac; auto.
Qed.

Lemma keeps_wf_step (cfg : config) (instrs : list inst_t) :
  keeps_wf (step cfg instrs).
Proof.
  pose proof (keeps_wf_run_instruction cfg).
  unfold step, PROG_CTR, set_PROG_CTR. keeps_wf_tac.
  destruct (index instrs _); keeps_wf_tac; auto.
Qed.

Lemma keeps_wf_copy_instructions (func : func_t) (st : list inst_t * Z) :
  keeps_wf (copy_instructions func st).
Proof.
  unfold copy_instructions. apply keeps_wf_for_loop. intros j [instrs idx].
  destruct (index (instructions func) j); [|apply keeps_wf_undefined].
  destruct (index instrs idx); [apply keeps_wf_ret | apply keeps_wf_undefined].
Qed.

Lemma keeps_wf_load_function (cfg : config) (functions : list func_t) (i : Z)
    (st : list inst_t * Z) :
  keeps_wf (load_function cfg functions i st).
Proof.
  unfold load_function, set_INSTR_ADDR, set_FRAME_SIZE.
  destruct (index functions _) as [func|]; [|apply keeps_wf_undefined].
  case_bool_decide; [apply keeps_wf_ret|].
  apply keeps_wf_bind; [apply keeps_wf_write_ram|intros _].
  destruct (index (instructions func) _) as [last|]; [|apply keeps_wf_undefined].
  case_bool_decide; [apply keeps_wf_errx|].
  apply keeps_wf_bind; [apply keeps_wf_copy_instructions|intros st'].
  keeps_wf_tac.
Qed.

Lemma keeps_wf_bootstrap (cfg : config) (functions : list func_t)
    (instrs0 : list inst_t) :
  keeps_wf (bootstrap cfg functions instrs0).
Proof.
  pose proof (keeps_wf_load_function cfg functions).
  unfold bootstrap, INSTR_ADDR, FRAME_SIZE, STACK_PTR, set_STACK_PTR,
    PROG_CTR, set_PROG_CTR.
  keeps_wf_tac; auto.
Qed.

Lemma keeps_wf_Ok {A : Type} (c : M A) (m m' : machine) (a : A) :
  keeps_wf c -> wf m -> c m = Ok a m' -> wf m'.
Proof. intros Hc Hm E. specialize (Hc m Hm). rewrite E in Hc. exact Hc. Qed.

Lemma bind_Ok {A B : Type} (c : M A) (k : A -> M B) (m m' : machine) (b : B) :
  (c ≫= k) m = Ok b m' -> ∃ a m1, c m = Ok a m1 ∧ k a m1 = Ok b m'.
Proof.
  unfold mbind, M_bind. destruct (c m) as [a m1| |]; try discriminate.
  intros E. exists a, m1. split; [reflexivity | exact E].
Qed.

Lemma index_Some_range {A : Type} (l : list A) (i : Z) :
  is_Some (index l i) -> 0 <= i < Z.of_nat (length l).
Proof.
  unfold index. case_bool_decide; [|intros [? ?]; discriminate].
  intros Hs. apply lookup_lt_is_Some in Hs. lia.
Qed.

Lemma read_reg_Ok (i v : Z) (m m' : machine) :
  read_reg i m = Ok v m' -> m' = m ∧ v = reg m i.
Proof.
  unfold read_reg, reg. destruct (index _ _) as [w|]; [|discriminate].
  intros E. injection E as <- <-. split; reflexivity.
Qed.

Lemma read_ram_Ok (a v : Z) (m m' : machine) :
  read_ram a m = Ok v m' -> m' = m ∧ v = mem m a.
Proof.
  unfold read_ram, mem. destruct (index _ _) as [w|]; [|discriminate].
  intros E. injection E as <- <-. split; reflexivity.
Qed.

Lemma write_reg_Ok (i v : Z) (m m' : machine) :
  write_reg i v m = Ok tt m' ->
  m' = upd_reg m i v ∧ 0 <= i < Z.of_nat (length (registers m)).
Proof.
  unfold write_reg. destruct (index _ _) as [w|] eqn:E; [|discriminate].
  intros E'. injection E' as <-. split; [reflexivity|].
  apply index_Some_range. rewrite E. eexists; reflexivity.
Qed.

Lemma write_ram_Ok (a v : Z) (m m' : machine) :
  write_ram a v m = Ok tt m' ->
  m' = upd_mem m a v ∧ 0 <= a < Z.of_nat (length (ram m)).
Proof.
  unfold write_ram. destruct (index _ _) as [w|] eqn:E; [|discriminate].
  intros E'. injection E' as <-. split; [reflexivity|].
  apply index_Some_range. rewrite E. eexists; reflexivity.
Qed.

Ltac wf_tac :=
  repeat first [apply wf_upd_reg | apply wf_upd_mem]; assumption.

Ltac range_tac :=
  first [lia | apply u8_byte | apply reg_byte; wf_tac | apply mem_byte; wf_tac].

Ltac side_tac := first [wf_tac | range_tac].

(** One statement of the code is run. *)
Ltac exec1 :=
  first [ rewrite bind_assoc
        | rewrite bind_ret
        | rewrite bind_errx
        | rewrite bind_read_reg by side_tac
        | rewrite bind_write_reg by side_tac
        | rewrite bind_read_ram by side_tac
        | rewrite bind_write_ram by side_tac
        | rewrite read_reg_ok by side_tac
        | rewrite write_reg_ok by side_tac
        | rewrite read_ram_ok by side_tac
        | rewrite write_ram_ok by side_tac ];
  cbv beta.

Ltac exec := repeat exec1.

(** Registers and cells of an updated machine. *)
Ltac simp_state :=
  repeat first [ rewrite reg_upd_mem
               | rewrite mem_upd_reg
               | rewrite reg_upd_reg_eq by side_tac
               | rewrite reg_upd_reg_ne by lia
               | rewrite mem_upd_mem_eq by side_tac
               | rewrite u8_idem ].

Ltac open_slots H :=
  unfold slots_ok, NUM_REGISTERS in H;
  destruct H as (?Hsp & ?Hpc & ?Hne & ?Hsp4 & ?Hsp5 & ?Hpc4 & ?Hpc5).

(** The operand constraint of an opcode is violated by an instruction. *)
Definition violates_constraint (inst : inst_t) : Prop :=
  match opcode inst with
  | MOV => type (arg1 inst) = VAL
  | CAL => type (arg1 inst) ≠ VAL
  | REF => type (arg2 inst) ≠ STACK ∧ type (arg2 inst) ≠ PTR
  | ADD => type (arg1 inst) ≠ REG ∨ type (arg2 inst) ≠ REG
  | NOT => type (arg1 inst) ≠ REG
  | EQU => type (arg1 inst) ≠ REG
  | RET | PRINT => False
  end.

(** The opcodes that constrain their operands. *)
Definition constrained (op : opcode_t) : Prop := op ≠ RET ∧ op ≠ PRINT.

(** The diagnostic of the constraint of an opcode. *)
Definition diagnostic (op : opcode_t) : string :=
  match op with
  | MOV => "first argument to MOV must not be value typed."
  | CAL => "first argument to CAL must be value typed."
  | REF => "second argument to REF must be stack or pointer typed."
  | ADD => "both arguments to ADD must be register typed."
  | NOT => "first argument to NOT must be register typed."
  | EQU => "first argument to EQU must be register typed."
  | RET | PRINT => ""
  end.

Section Properties.

Variable cfg : config.

(** The machine that [call_function] leaves when it does not abort, one
    assignment of lines 203-222 after the other. *)
Definition pushed (l : Z) (m : machine) : machine :=
  let m1 := upd_reg m 4 (STACK_MAX cfg - frame_size_of cfg m l - 4) in
  let m2 := upd_reg m1 4 (sp_of cfg m1 + 2 + frame_size_of cfg m1 l) in
  let m3 := upd_reg m2 5 (reg m2 4 + 1) in
  let m4 := upd_mem m3 (reg m3 5) (sp_of cfg m3) in
  let m5 := upd_reg m4 5 (reg m4 5 + 1) in
  let m6 := upd_mem m5 (reg m5 5) (pc_of cfg m5) in
  let m7 := upd_reg m6 (SP_REG cfg) (reg m6 4) in
  upd_reg m7 (PC_REG cfg) (mem m7 l).

(** The threshold that line 203 leaves in register 4. *)
Definition threshold (l : Z) (m : machine) : Z :=
  u8 (STACK_MAX cfg - frame_size_of cfg m l - 4).

Lemma call_function_run (l : Z) (m : machine) :
  slots_ok cfg -> wf m ->
  0 <= MAX_FUNCTIONS cfg + l < 256 -> 0 <= l < 256 ->
  call_function cfg l m =
    if bool_decide (sp_of cfg m > threshold l m)
    then Fatal "Stack overflow detected when trying to call function %d" [l]
               (upd_reg m 4 (STACK_MAX cfg - frame_size_of cfg m l - 4))
    else Ok tt (pushed l m).
Proof.
  intros Hs Hm Hfl Hl. open_slots Hs.
  unfold call_function, STACK_PTR, set_STACK_PTR, PROG_CTR, set_PROG_CTR,
    FRAME_SIZE, INSTR_ADDR.
  do 4 exec1.
  unfold threshold, sp_of, frame_size_of.
  rewrite reg_upd_reg_eq by side_tac. rewrite reg_upd_reg_ne by lia.
  case_bool_decide.
  - reflexivity.
  - exec. reflexivity.
Qed.

Lemma call_function_out (l : Z) (m : machine) :
  wf m -> ¬ (0 <= MAX_FUNCTIONS cfg + l < 256) ->
  call_function cfg l m = Undefined.
Proof.
  intros Hm Hl. unfold call_function, mbind, M_bind.
  rewrite read_ram_out by assumption. reflexivity.
Qed.

(** What an executed call is: the overflow check passed and the machine is
    the pushed one. *)
Lemma call_function_Ok (l : Z) (m m' : machine) :
  slots_ok cfg -> wf m -> 0 <= l < 256 ->
  call_function cfg l m = Ok tt m' ->
  0 <= MAX_FUNCTIONS cfg + l < 256 ∧
  sp_of cfg m <= threshold l m ∧ m' = pushed l m.
Proof.
  intros Hs Hm Hl Hc.
  destruct (decide (0 <= MAX_FUNCTIONS cfg + l < 256)) as [Hfl|Hfl].
  - rewrite call_function_run in Hc by assumption.
    case_bool_decide; [discriminate|].
    split; [exact Hfl|]. split; [lia|]. congruence.
  - rewrite call_function_out in Hc by assumption. discriminate.
Qed.

(** An executed [CAL] is a call of the label in its first operand. *)
Lemma run_CAL (inst : inst_t) (m m' : machine) (r : Z) :
  opcode inst = CAL ->
  run_instruction cfg inst m = Ok r m' ->
  r = 0 ∧ type (arg1 inst) = VAL ∧
  call_function cfg (u8 (value (arg1 inst))) m = Ok tt m'.
Proof.
  intros Hop Hr. unfold run_instruction in Hr. rewrite Hop in Hr.
  case_bool_decide as Hty; [discriminate|].
  unfold mbind, M_bind in Hr.
  destruct (call_function cfg (u8 (value (arg1 inst))) m) as [[] m1| |] eqn:E;
    try discriminate.
  unfold mret, M_ret in Hr. injection Hr as <- <-.
  split; [reflexivity|]. split; [|reflexivity].
  destruct (decide (type (arg1 inst) = VAL)); [assumption|contradiction].
Qed.

Lemma sp_of_pushed (l : Z) (m : machine) :
  slots_ok cfg -> wf m ->
  sp_of cfg (pushed l m) = u8 (sp_of cfg m + 2 + frame_size_of cfg m l).
Proof.
  intros Hs Hm. open_slots Hs.
  unfold pushed, sp_of, pc_of, frame_size_of. cbv zeta.
  simp_state. reflexivity.
Qed.

(** The machine that [RET] leaves when it pops a frame, one assignment of
    lines 91-99 after the other. *)
Definition returned (m : machine) : machine :=
  let m1 := upd_reg m 4 (sp_of cfg m + 1) in
  let m2 := upd_reg m1 (SP_REG cfg) (mem m1 (reg m1 4)) in
  let m3 := upd_reg m2 4 (reg m2 4 + 1) in
  upd_reg m3 (PC_REG cfg) (mem m3 (reg m3 4)).

(** The saved link pointer and the saved return address of the current
    frame: the two bytes above the stack pointer. *)
Definition link_of (m : machine) : Z := mem m (u8 (sp_of cfg m + 1)).
Definition return_address_of (m : machine) : Z := mem m (u8 (sp_of cfg m + 2)).

Lemma run_RET (inst : inst_t) (m : machine) :
  slots_ok cfg -> wf m -> opcode inst = RET ->
  run_instruction cfg inst m =
    if bool_decide (link_of m = 0)
    then Ok 1 (upd_reg m 4 (sp_of cfg m + 1))
    else Ok 0 (returned m).
Proof.
  intros Hs Hm Hop. open_slots Hs.
  unfold run_instruction. rewrite Hop.
  unfold STACK_PTR, set_STACK_PTR, PROG_CTR, set_PROG_CTR.
  do 4 exec1. unfold link_of, sp_of.
  rewrite reg_upd_reg_eq by side_tac. rewrite mem_upd_reg.
  case_bool_decide.
  - reflexivity.
  - exec. reflexivity.
Qed.

Lemma sp_of_returned (m : machine) :
  slots_ok cfg -> wf m -> sp_of cfg (returned m) = link_of m.
Proof.
  intros Hs Hm. open_slots Hs.
  unfold returned, link_of, sp_of. cbv zeta. simp_state.
  apply u8_small. apply mem_byte. assumption.
Qed.

Lemma pc_of_returned (m : machine) :
  slots_ok cfg -> wf m -> pc_of cfg (returned m) = return_address_of m.
Proof.
  intros Hs Hm. open_slots Hs.
  unfold returned, return_address_of, sp_of, pc_of. cbv zeta. simp_state.
  rewrite u8_small by (apply mem_byte; assumption).
  f_equal. u8_lia.
Qed.

(** The bootstrap leaves the sentinel in the header of the entry frame. *)
Lemma bootstrap_sentinel (functions : list func_t) (instrs0 instrs : list inst_t)
    (m0 m : machine) :
  wf m0 ->
  bootstrap cfg functions instrs0 m0 = Ok instrs m ->
  wf m ∧ link_of m = 0.
Proof.
  intros Hm0 Hb.
  assert (Hm : wf m) by (eapply keeps_wf_Ok; [apply keeps_wf_bootstrap|..]; eassumption).
  split; [exact Hm|].
  unfold bootstrap in Hb.
  apply bind_Ok in Hb as (_ & m1 & _ & Hb).
  apply bind_Ok in Hb as (st & m2 & _ & Hb).
  apply bind_Ok in Hb as (a & m3 & _ & Hb).
  apply bind_Ok in Hb as (_ & m4 & _ & Hb).
  apply bind_Ok in Hb as (pc & m5 & _ & Hb).
  case_bool_decide; [discriminate|].
  apply bind_Ok in Hb as (fs & m6 & _ & Hb).
  apply bind_Ok in Hb as (_ & m7 & _ & Hb).
  apply bind_Ok in Hb as (sp & m8 & Hsp & Hb).
  apply bind_Ok in Hb as ([] & m9 & Hw & Hb).
  injection Hb as _ <-.
  apply read_reg_Ok in Hsp as [-> ->].
  apply write_ram_Ok in Hw as [-> Hr].
  destruct Hm as (Hlen & _). simpl in Hlen. rewrite length_insert in Hlen.
  rewrite Hlen in Hr. change (Z.to_nat RAM_SIZE) with 256%nat in Hr.
  unfold link_of, sp_of. rewrite reg_upd_mem.
  fold (sp_of cfg m7) in *. rewrite u8_small by lia.
  unfold mem, upd_mem; simpl. rewrite index_insert_eq; [reflexivity|].
  rewrite Hlen. change (Z.to_nat RAM_SIZE) with 256%nat. lia.
Qed.

(** The two header cells of a pushed frame. *)
Lemma link_of_pushed (l : Z) (m : machine) :
  slots_ok cfg -> wf m -> link_of (pushed l m) = sp_of cfg m.
Proof.
  intros Hs Hm. unfold link_of. rewrite sp_of_pushed by assumption.
  pose proof (reg_byte m (SP_REG cfg) Hm) as Hb.
  open_slots Hs.
  unfold pushed, sp_of, pc_of, frame_size_of. cbv zeta.
  simp_state.
  set (n := u8 (reg m (SP_REG cfg) + 2 + mem m (MAX_FUNCTIONS cfg + l))).
  rewrite mem_upd_mem_ne by u8_lia.
  simp_state. apply u8_small. exact Hb.
Qed.

Lemma return_address_of_pushed (l : Z) (m : machine) :
  slots_ok cfg -> wf m -> return_address_of (pushed l m) = pc_of cfg m.
Proof.
  intros Hs Hm. unfold return_address_of. rewrite sp_of_pushed by assumption.
  pose proof (reg_byte m (PC_REG cfg) Hm) as Hb.
  open_slots Hs.
  unfold pushed, sp_of, pc_of, frame_size_of. cbv zeta.
  simp_state.
  set (n := u8 (reg m (SP_REG cfg) + 2 + mem m (MAX_FUNCTIONS cfg + l))).
  replace (u8 (n + 2)) with (u8 (u8 (n + 1) + 1)) by u8_lia.
  simp_state. apply u8_small. exact Hb.
Qed.

(** A call writes no other cell of RAM than the two header cells. *)
Lemma mem_pushed_other (l a : Z) (m : machine) :
  slots_ok cfg -> wf m ->
  a ≠ u8 (sp_of cfg (pushed l m) + 1) -> a ≠ u8 (sp_of cfg (pushed l m) + 2) ->
  mem (pushed l m) a = mem m a.
Proof.
  intros Hs Hm. rewrite sp_of_pushed by assumption.
  open_slots Hs.
  unfold pushed, sp_of, pc_of, frame_size_of. cbv zeta.
  simp_state.
  set (n := u8 (reg m (SP_REG cfg) + 2 + mem m (MAX_FUNCTIONS cfg + l))).
  intros H1 H2.
  rewrite mem_upd_mem_ne by u8_lia. simp_state.
  rewrite mem_upd_mem_ne by u8_lia. simp_state. reflexivity.
Qed.

(** A call writes no other register than the scratch registers, the stack
    pointer and the program counter, and prints nothing. *)
Lemma reg_pushed_other (l i : Z) (m : machine) :
  slots_ok cfg -> i ≠ 4 -> i ≠ 5 -> i ≠ SP_REG cfg -> i ≠ PC_REG cfg ->
  reg (pushed l m) i = reg m i.
Proof.
  intros Hs H4 H5 Hi1 Hi2. open_slots Hs.
  unfold pushed. cbv zeta.
  repeat first [rewrite reg_upd_mem | rewrite reg_upd_reg_ne by lia].
  reflexivity.
Qed.

Lemma stdout_pushed (l : Z) (m : machine) : stdout (pushed l m) = stdout m.
Proof. reflexivity. Qed.

(** The program counter after a call is the entry address of the callee,
    read after the header was written. *)
Lemma pc_of_pushed (l : Z) (m : machine) :
  slots_ok cfg -> wf m ->
  l ≠ u8 (sp_of cfg (pushed l m) + 1) -> l ≠ u8 (sp_of cfg (pushed l m) + 2) ->
  pc_of cfg (pushed l m) = mem m l.
Proof.
  intros Hs Hm. rewrite sp_of_pushed by assumption.
  pose proof (mem_byte m l Hm) as Hb.
  open_slots Hs.
  unfold pushed, sp_of, pc_of, frame_size_of. cbv zeta.
  simp_state.
  set (n := u8 (reg m (SP_REG cfg) + 2 + mem m (MAX_FUNCTIONS cfg + l))).
  intros H1 H2.
  rewrite mem_upd_mem_ne by u8_lia. simp_state.
  rewrite mem_upd_mem_ne by u8_lia. simp_state.
  apply u8_small. exact Hb.
Qed.

(** The machine after the fetch of line 63: the program counter has moved
    to the next instruction. *)
Definition fetched (m : machine) : machine :=
  upd_reg m (PC_REG cfg) (pc_of cfg m + 1).

Lemma step_fetch (instrs : list inst_t) (inst : inst_t) (m : machine) :
  slots_ok cfg -> wf m ->
  index instrs (pc_of cfg m) = Some inst ->
  step cfg instrs m = run_instruction cfg inst (fetched m).
Proof.
  intros Hs Hm Hi. open_slots Hs.
  unfold step, PROG_CTR, set_PROG_CTR. exec.
  fold (pc_of cfg m). rewrite Hi. reflexivity.
Qed.

Lemma wf_fetched (m : machine) : wf m -> wf (fetched m).
Proof. apply wf_upd_reg. Qed.

Lemma sp_of_fetched (m : machine) :
  slots_ok cfg -> sp_of cfg (fetched m) = sp_of cfg m.
Proof.
  intros Hs. open_slots Hs. unfold fetched, sp_of.
  rewrite reg_upd_reg_ne by lia. reflexivity.
Qed.


Lemma link_of_fetched (m : machine) :
  slots_ok cfg -> link_of (fetched m) = link_of m.
Proof.
  intros Hs. unfold link_of. rewrite sp_of_fetched by assumption. reflexivity.
Qed.

(** ** Return *)

(** C2: an executed [RET] signals the end of the run exactly when the link
    pointer saved in the header of the current frame is the sentinel zero;
    otherwise it sets the stack pointer to the saved link and the program
    counter to the return address saved in the next byte, and the run goes
    on.  The loop of [vm_x2017] ends on the signal and only on it, and the
    bootstrap leaves the sentinel in the header of the entry frame. *)
Theorem ret_terminates_iff_sentinel (inst : inst_t) (m : machine) :
  slots_ok cfg -> wf m -> opcode inst = RET ->
  (∃ r m', run_instruction cfg inst m = Ok r m' ∧
           (r ≠ 0 ↔ link_of m = 0) ∧
           (link_of m ≠ 0 ->
            sp_of cfg m' = link_of m ∧ pc_of cfg m' = return_address_of m)) ∧
  (∀ instrs fuel, index instrs (pc_of cfg m) = Some inst ->
     (link_of m = 0 -> ∃ m', run cfg (S fuel) instrs m = Some (Ok tt m')) ∧
     (link_of m ≠ 0 ->
      ∃ m', run cfg (S fuel) instrs m = run cfg fuel instrs m' ∧
            sp_of cfg m' = link_of m ∧
            pc_of cfg m' = return_address_of m)) ∧
  (∀ functions instrs0 instrs m0 mb, wf m0 ->
     bootstrap cfg functions instrs0 m0 = Ok instrs mb -> link_of mb = 0).
Proof.
  intros Hs Hm Hop. split; [|split].
  - rewrite run_RET by assumption. case_bool_decide as Hl.
    + eexists _, _. split; [reflexivity|]. split; [|tauto]. split; [tauto|lia].
    + eexists _, _. split; [reflexivity|]. split; [tauto|]. intros _.
      split; [apply sp_of_returned | apply pc_of_returned]; assumption.
  - intros instrs fuel Hi. simpl.
    rewrite (step_fetch _ _ _ Hs Hm Hi).
    rewrite run_RET by (try apply wf_fetched; assumption).
    rewrite link_of_fetched by assumption.
    split; intros Hl.
    + rewrite bool_decide_eq_true_2 by assumption. simpl. eexists; reflexivity.
    + rewrite bool_decide_eq_false_2 by assumption. simpl.
      exists (returned (fetched m)). split; [reflexivity|].
      rewrite sp_of_returned, pc_of_returned by (try apply wf_fetched; assumption).
      rewrite link_of_fetched by assumption.
      split; [reflexivity|].
      unfold return_address_of. rewrite sp_of_fetched by assumption.
      unfold mem, fetched, upd_reg; simpl. reflexivity.
  - intros functions instrs0 instrs m0 mb Hm0 Hb.
    apply (bootstrap_sentinel _ _ _ _ _ Hm0 Hb).
Qed.

(** ** The stack pointer across a call *)

(** When the overflow check passes for a frame size that the byte-wide
    threshold can express, the new frame and its header lie within the
    stack: nothing wraps around. *)
Lemma check_passed_no_wrap (l : Z) (m : machine) :
  wf m ->
  frame_size_of cfg m l + 4 <= STACK_MAX cfg <= 256 ->
  sp_of cfg m <= threshold l m ->
  0 <= sp_of cfg m ∧ 0 <= frame_size_of cfg m l ∧
  sp_of cfg m + 2 + frame_size_of cfg m l + 2 <= STACK_MAX cfg.
Proof.
  intros Hm Hmax Hthr.
  pose proof (reg_byte m (SP_REG cfg) Hm) as Hb. fold (sp_of cfg m) in Hb.
  pose proof (mem_byte m (MAX_FUNCTIONS cfg + l) Hm) as Hf.
  fold (frame_size_of cfg m l) in Hf.
  unfold threshold in Hthr. rewrite u8_small in Hthr by lia. lia.
Qed.

(** C1 (amended): for every executed [CAL] with callee label [L] the stack
    pointer increases: the new stack pointer equals the old one plus
    [2 + frame_size of L] modulo 256, and without wrapping whenever
    [frame_size + 4 <= STACK_MAX <= 256]; each new frame sits at a higher
    address than the frame of its caller. *)
Theorem call_raises_stack_pointer (inst : inst_t) (m m' : machine) (r : Z) :
  slots_ok cfg -> wf m ->
  opcode inst = CAL ->
  run_instruction cfg inst m = Ok r m' ->
  let fs := frame_size_of cfg m (u8 (value (arg1 inst))) in
  sp_of cfg m' = u8 (sp_of cfg m + (2 + fs)) ∧
  (fs + 4 <= STACK_MAX cfg <= 256 ->
   sp_of cfg m' = sp_of cfg m + (2 + fs) ∧ sp_of cfg m < sp_of cfg m').
Proof.
  intros Hs Hm Hop Hr fs.
  destruct (run_CAL _ _ _ _ Hop Hr) as (_ & _ & Hc).
  destruct (call_function_Ok _ _ _ Hs Hm (u8_byte _) Hc) as (_ & Hthr & ->).
  rewrite sp_of_pushed by assumption. fold fs.
  split; [f_equal; lia|]. intros Hmax.
  destruct (check_passed_no_wrap _ _ Hm Hmax Hthr) as (H0 & Hf & Hfit).
  fold fs in Hf, Hfit.
  rewrite u8_small by lia. lia.
Qed.

(** ** The header of a frame *)

(** C3: an executed [CAL] stores the two linkage bytes just above the new
    stack pointer of the callee: the stack pointer of the caller at the new
    stack pointer + 1, then the program counter of the caller at the new
    stack pointer + 2 (byte arithmetic, and without wrapping when
    [frame_size + 4 <= STACK_MAX <= 255]); an executed [RET] reads the link
    pointer at the current stack pointer + 1 and the return address in the
    next byte. *)
Theorem linkage_bytes_above_stack_pointer (m : machine) :
  slots_ok cfg -> wf m ->
  (∀ inst r m',
     opcode inst = CAL -> run_instruction cfg inst m = Ok r m' ->
     mem m' (u8 (sp_of cfg m' + 1)) = sp_of cfg m ∧
     mem m' (u8 (sp_of cfg m' + 2)) = pc_of cfg m ∧
     (frame_size_of cfg m (u8 (value (arg1 inst))) + 4 <= STACK_MAX cfg <= 255 ->
      u8 (sp_of cfg m' + 1) = sp_of cfg m' + 1 ∧
      u8 (sp_of cfg m' + 2) = sp_of cfg m' + 2)) ∧
  (∀ inst r m',
     opcode inst = RET -> run_instruction cfg inst m = Ok r m' ->
     (r = 1 ∧ mem m (u8 (sp_of cfg m + 1)) = 0) ∨
     (r = 0 ∧ sp_of cfg m' = mem m (u8 (sp_of cfg m + 1)) ∧
      pc_of cfg m' = mem m (u8 (sp_of cfg m + 2)))).
Proof.
  intros Hs Hm. split.
  - intros inst r m' Hop Hr.
    destruct (run_CAL _ _ _ _ Hop Hr) as (_ & _ & Hc).
    destruct (call_function_Ok _ _ _ Hs Hm (u8_byte _) Hc) as (_ & Hthr & ->).
    split; [apply (link_of_pushed _ _ Hs Hm)|].
    split; [apply (return_address_of_pushed _ _ Hs Hm)|].
    intros Hmax.
    destruct (check_passed_no_wrap (u8 (value (arg1 inst))) m Hm) as (H0 & Hf & Hfit);
      [lia | exact Hthr |].
    rewrite sp_of_pushed by assumption.
    rewrite (u8_small (sp_of cfg m + 2 + _)) by lia.
    split; apply u8_small; lia.
  - intros inst r m' Hop Hr.
    rewrite run_RET in Hr by assumption. fold (link_of m).
    fold (return_address_of m).
    case_bool_decide as Hl; injection Hr as <- <-.
    + left. split; [reflexivity | assumption].
    + right. split; [reflexivity|].
      split; [apply sp_of_returned | apply pc_of_returned]; assumption.
Qed.

(** ** The return address *)



(** ** Registers that a piece of code leaves alone *)

(** The code [c] does not change register [i]. *)
Definition keeps_reg {A : Type} (i : Z) (c : M A) : Prop :=
  ∀ m a m', c m = Ok a m' -> reg m' i = reg m i.

Lemma keeps_reg_ret {A : Type} (i : Z) (a : A) : keeps_reg i (mret a).
Proof. intros m b m' E. injection E as _ <-. reflexivity. Qed.

Lemma keeps_reg_bind {A B : Type} (i : Z) (c : M A) (k : A -> M B) :
  keeps_reg i c -> (∀ a, keeps_reg i (k a)) -> keeps_reg i (c ≫= k).
Proof.
  intros Hc Hk m b m' E. apply bind_Ok in E as (a & m1 & E1 & E2).
  rewrite (Hk a _ _ _ E2). apply (Hc _ _ _ E1).
Qed.

Lemma keeps_reg_errx {A : Type} (i : Z) fmt args : keeps_reg i (@errx A fmt args).
Proof. intros m a m' E. discriminate E. Qed.

Lemma keeps_reg_read_reg (i j : Z) : keeps_reg i (read_reg j).
Proof. intros m a m' E. apply read_reg_Ok in E as [-> _]. reflexivity. Qed.

Lemma keeps_reg_read_ram (i a : Z) : keeps_reg i (read_ram a).
Proof. intros m v m' E. apply read_ram_Ok in E as [-> _]. reflexivity. Qed.

Lemma keeps_reg_write_ram (i a v : Z) : keeps_reg i (write_ram a v).
Proof. intros m [] m' E. apply write_ram_Ok in E as [-> _]. reflexivity. Qed.

Lemma keeps_reg_printf (i v : Z) : keeps_reg i (printf v).
Proof. intros m [] m' E. injection E as <-. reflexivity. Qed.

Lemma keeps_reg_write_reg (i j v : Z) : j ≠ i -> keeps_reg i (write_reg j v).
Proof.
  intros Hne m [] m' E. apply write_reg_Ok in E as [-> Hj].
  apply reg_upd_reg_ne; [lia | exact Hne].
Qed.

Ltac keeps_reg_tac :=
  repeat first
    [ apply keeps_reg_ret | apply keeps_reg_errx
    | apply keeps_reg_read_reg | apply keeps_reg_read_ram
    | apply keeps_reg_write_ram | apply keeps_reg_printf
    | apply keeps_reg_write_reg; first [assumption | lia | congruence]
    | apply keeps_reg_bind; [|intros ?]
    | case_bool_decide ].

(** The register that an instruction other than [CAL] and [RET] names as
    its destination, if any. *)
Definition destination (inst : inst_t) : option Z :=
  match opcode inst with
  | MOV | REF =>
      match type (arg1 inst) with REG => Some (value (arg1 inst)) | _ => None end
  | ADD | NOT | EQU => Some (value (arg1 inst))
  | CAL | RET | PRINT => None
  end.

(** An instruction other than [CAL] and [RET] whose destination is not the
    register of the stack pointer leaves the stack pointer alone. *)
Lemma plain_keeps_stack_pointer (inst : inst_t) (m m' : machine) (r : Z) :
  slots_ok cfg ->
  opcode inst ≠ CAL -> opcode inst ≠ RET ->
  destination inst ≠ Some (SP_REG cfg) ->
  run_instruction cfg inst m = Ok r m' ->
  sp_of cfg m' = sp_of cfg m.
Proof.
  intros Hs Hc Hr Hd. open_slots Hs.
  assert (Hmov : type (arg1 inst) = REG -> value (arg1 inst) ≠ SP_REG cfg ->
                 keeps_reg (SP_REG cfg) (mov cfg (arg1 inst))).
  { intros Hty Hv. unfold mov. rewrite Hty. keeps_reg_tac. }
  assert (Hmov' : type (arg1 inst) ≠ REG ->
                  keeps_reg (SP_REG cfg) (mov cfg (arg1 inst))).
  { intros Hty. unfold mov, STACK_LOC, STACK_PTR.
    destruct (type (arg1 inst)); try contradiction; keeps_reg_tac. }
  assert (Hval : ∀ a, keeps_reg (SP_REG cfg) (arg_value cfg a)).
  { intros a. unfold arg_value, STACK_LOC, STACK_PTR.
    destruct (type a); keeps_reg_tac. }
  enough (keeps_reg (SP_REG cfg) (run_instruction cfg inst)) as H
    by (intros E; apply (H _ _ _ E)).
  unfold destination in Hd. unfold run_instruction, STACK_LOC, STACK_PTR.
  destruct (opcode inst); try contradiction; keeps_reg_tac; auto.
  - destruct (decide (type (arg1 inst) = REG)) as [Hty|Hty].
    + apply Hmov; [exact Hty|]. rewrite Hty in Hd. congruence.
    + apply Hmov'. exact Hty.
  - destruct (decide (type (arg1 inst) = REG)) as [Hty|Hty].
    + apply Hmov; [exact Hty|]. rewrite Hty in Hd. congruence.
    + apply Hmov'. exact Hty.
Qed.

(** ** Call and return balance *)

(** A stretch of the run at one call depth, from [m] to [m']: instructions
    other than [CAL] and [RET], and calls together with all that runs up to
    their matching [RET].  [live] holds the addresses of the saved link
    pointers of the frames that are live during the stretch.  The engine
    checks none of this, so the stretch carries the two conditions under
    which the frames are respected: an instruction other than [CAL] and
    [RET] leaves the stack pointer alone, and no instruction overwrites
    the saved link pointer of a live frame. *)
Inductive level (instrs : list inst_t) (live : list Z)
    : machine -> machine -> Prop :=
| level_done (m : machine) : level instrs live m m
| level_plain (m m1 m2 : machine) (inst : inst_t) :
    index instrs (pc_of cfg m) = Some inst ->
    opcode inst ≠ CAL -> opcode inst ≠ RET ->
    step cfg instrs m = Ok 0 m1 ->
    sp_of cfg m1 = sp_of cfg m ->
    Forall (fun a => mem m1 a = mem m a) live ->
    level instrs live m1 m2 ->
    level instrs live m m2
| level_call (m m1 m2 m3 m4 : machine) (c r : inst_t) :
    index instrs (pc_of cfg m) = Some c -> opcode c = CAL ->
    step cfg instrs m = Ok 0 m1 ->
    Forall (fun a => mem m1 a = mem m a) live ->
    level instrs (u8 (sp_of cfg m1 + 1) :: live) m1 m2 ->
    index instrs (pc_of cfg m2) = Some r -> opcode r = RET ->
    step cfg instrs m2 = Ok 0 m3 ->
    level instrs live m3 m4 ->
    level instrs live m m4.

Lemma mem_returned (m : machine) (a : Z) : mem (returned m) a = mem m a.
Proof. reflexivity. Qed.

Lemma mem_fetched (m : machine) (a : Z) : mem (fetched m) a = mem m a.
Proof. reflexivity. Qed.

(** An executed call, seen from the loop. *)
Lemma step_CAL (instrs : list inst_t) (c : inst_t) (m m1 : machine) (r : Z) :
  slots_ok cfg -> wf m ->
  index instrs (pc_of cfg m) = Some c -> opcode c = CAL ->
  step cfg instrs m = Ok r m1 ->
  wf m1 ∧ link_of m1 = sp_of cfg m.
Proof.
  intros Hs Hm Hi Hop Hst.
  split; [eapply keeps_wf_Ok; [apply keeps_wf_step|..]; eassumption|].
  rewrite (step_fetch _ _ _ Hs Hm Hi) in Hst.
  destruct (run_CAL _ _ _ _ Hop Hst) as (_ & _ & Hc).
  pose proof (wf_fetched m Hm) as Hmf.
  destruct (call_function_Ok _ _ _ Hs Hmf (u8_byte _) Hc) as (_ & _ & ->).
  rewrite link_of_pushed by assumption. apply sp_of_fetched. assumption.
Qed.

(** A return that pops a frame, seen from the loop. *)
Lemma step_RET (instrs : list inst_t) (r : inst_t) (m : machine) :
  slots_ok cfg -> wf m ->
  index instrs (pc_of cfg m) = Some r -> opcode r = RET ->
  step cfg instrs m =
    if bool_decide (link_of m = 0)
    then Ok 1 (upd_reg (fetched m) 4 (sp_of cfg m + 1))
    else Ok 0 (returned (fetched m)).
Proof.
  intros Hs Hm Hi Hop.
  rewrite (step_fetch _ _ _ Hs Hm Hi).
  rewrite run_RET by (try apply wf_fetched; assumption).
  rewrite link_of_fetched, sp_of_fetched by assumption. reflexivity.
Qed.

(** A stretch at one call depth ends with the stack pointer it started
    with, and with the saved links of the live frames as they were. *)
Lemma level_balance (instrs : list inst_t) (live : list Z) (m m' : machine) :
  slots_ok cfg ->
  level instrs live m m' -> wf m ->
  wf m' ∧ sp_of cfg m' = sp_of cfg m ∧
  ∀ a, a ∈ live -> mem m' a = mem m a.
Proof.
  intros Hs Hl. induction Hl as
    [ live m
    | live m m1 m2 inst Hi Hc Hr Hst Hsp Hlive Hl IH
    | live m m1 m2 m3 m4 c r Hi Hc Hst Hlive Hl1 IH1 Hi2 Hr Hst2 Hl2 IH2 ];
    intros Hm.
  - auto.
  - assert (Hm1 : wf m1)
      by (eapply keeps_wf_Ok; [apply keeps_wf_step|..]; eassumption).
    destruct (IH Hm1) as (Hm2 & Hsp2 & Hmem2).
    split; [exact Hm2|]. split; [congruence|].
    intros a Ha. rewrite (Hmem2 a Ha).
    rewrite Forall_forall in Hlive. apply Hlive. exact Ha.
  - destruct (step_CAL _ _ _ _ _ Hs Hm Hi Hc Hst) as [Hm1 Hlink].
    destruct (IH1 Hm1) as (Hm2 & Hsp2 & Hmem2).
    assert (Hlink2 : link_of m2 = sp_of cfg m).
    { unfold link_of. rewrite Hsp2.
      rewrite (Hmem2 (u8 (sp_of cfg m1 + 1))) by (left).
      exact Hlink. }
    rewrite (step_RET _ _ _ Hs Hm2 Hi2 Hr) in Hst2.
    case_bool_decide as Hz; [discriminate|]. injection Hst2 as <-.
    assert (Hm3 : wf (returned (fetched m2))).
    { eapply keeps_wf_Ok; [apply (keeps_wf_run_instruction cfg r)| |].
      - apply wf_fetched. exact Hm2.
      - rewrite run_RET by (try apply wf_fetched; assumption).
        rewrite link_of_fetched by assumption.
        rewrite bool_decide_eq_false_2 by assumption. reflexivity. }
    destruct (IH2 Hm3) as (Hm4 & Hsp4 & Hmem4).
    split; [exact Hm4|]. split.
    + rewrite Hsp4. rewrite sp_of_returned by (try apply wf_fetched; assumption).
      rewrite link_of_fetched by assumption. exact Hlink2.
    + intros a Ha. rewrite (Hmem4 a Ha).
      rewrite mem_returned, mem_fetched.
      rewrite (Hmem2 a) by (right; exact Ha).
      rewrite Forall_forall in Hlive. apply Hlive. exact Ha.
Qed.

(** C4 (amended): when, between a [CAL] and its matching [RET] (the one
    that pops the frame which the [CAL] pushed), no instruction other than
    [CAL] and [RET] changes the stack pointer and no instruction overwrites
    the saved link pointer of a live frame, and the stack pointer of the
    caller is not the sentinel 0, the [RET] pops the frame and the stack
    pointer has the value it had just before the [CAL].  Neither the loader
    nor the operand checks enforce the two conditions. *)
Theorem call_return_balance (instrs : list inst_t) (live : list Z)
    (m m1 m2 : machine) (c r : inst_t) :
  slots_ok cfg -> wf m ->
  index instrs (pc_of cfg m) = Some c -> opcode c = CAL ->
  step cfg instrs m = Ok 0 m1 ->
  level instrs (u8 (sp_of cfg m1 + 1) :: live) m1 m2 ->
  index instrs (pc_of cfg m2) = Some r -> opcode r = RET ->
  sp_of cfg m ≠ 0 ->
  ∃ m3, step cfg instrs m2 = Ok 0 m3 ∧ sp_of cfg m3 = sp_of cfg m.
Proof.
  intros Hs Hm Hi Hc Hst Hl Hi2 Hr Hsp0.
  destruct (step_CAL _ _ _ _ _ Hs Hm Hi Hc Hst) as [Hm1 Hlink].
  destruct (level_balance _ _ _ _ Hs Hl Hm1) as (Hm2 & Hsp2 & Hmem2).
  assert (Hlink2 : link_of m2 = sp_of cfg m).
  { unfold link_of. rewrite Hsp2.
    rewrite (Hmem2 (u8 (sp_of cfg m1 + 1))) by (left).
    exact Hlink. }
  rewrite (step_RET _ _ _ Hs Hm2 Hi2 Hr).
  rewrite bool_decide_eq_false_2 by congruence.
  eexists. split; [reflexivity|].
  rewrite sp_of_returned by (try apply wf_fetched; assumption).
  rewrite link_of_fetched by assumption. exact Hlink2.
Qed.

(** ** Stack overflow *)

(** The overflow check of lines 203-206 fails: the run aborts, and only
    scratch register 4 has changed by then. *)
Lemma call_over_threshold (inst : inst_t) (m : machine) :
  slots_ok cfg -> wf m ->
  opcode inst = CAL -> type (arg1 inst) = VAL ->
  let l := u8 (value (arg1 inst)) in
  0 <= MAX_FUNCTIONS cfg + l < 256 ->
  sp_of cfg m > threshold l m ->
  ∃ m', run_instruction cfg inst m =
          Fatal "Stack overflow detected when trying to call function %d"
                [l] m' ∧
        ram m' = ram m ∧ stdout m' = stdout m ∧
        (∀ i, i ≠ 4 -> reg m' i = reg m i) ∧
        reg m' 4 = threshold l m.
Proof.
  intros Hs Hm Hop Hty l Hfl Hov.
  exists (upd_reg m 4 (STACK_MAX cfg - frame_size_of cfg m l - 4)).
  split; [|split; [reflexivity|split; [reflexivity|split]]].
  - unfold run_instruction. rewrite Hop.
    rewrite bool_decide_eq_false_2 by (intros Hn; apply Hn; exact Hty).
    unfold mbind at 1. unfold M_bind. fold l.
    rewrite call_function_run by (try assumption; apply u8_byte).
    rewrite bool_decide_eq_true_2 by assumption. reflexivity.
  - intros i Hi.
    destruct (decide (0 <= i)) as [H0|H0].
    + apply reg_upd_reg_ne; lia.
    + unfold reg, index. rewrite !bool_decide_eq_false_2 by assumption.
      reflexivity.
  - rewrite reg_upd_reg_eq by (assumption || lia). reflexivity.
Qed.

(** C5 (amended): when a [CAL] would place the new frame and its header
    beyond the stack capacity [STACK_MAX] (for a frame size with
    [frame_size + 4 <= STACK_MAX <= 256]), the run aborts with the
    stack-overflow error that reports the label; at the abort no byte of
    RAM, no output and no register other than scratch register 4 has
    changed (register 4 holds the threshold of the check), so no part of a
    frame has been built. *)
Theorem call_overflow_aborts (inst : inst_t) (m : machine) :
  slots_ok cfg -> wf m ->
  opcode inst = CAL -> type (arg1 inst) = VAL ->
  let l := u8 (value (arg1 inst)) in
  let fs := frame_size_of cfg m l in
  0 <= MAX_FUNCTIONS cfg + l < 256 ->
  fs + 4 <= STACK_MAX cfg <= 256 ->
  STACK_MAX cfg < sp_of cfg m + 2 + fs + 2 ->
  ∃ m', run_instruction cfg inst m =
          Fatal "Stack overflow detected when trying to call function %d"
                [l] m' ∧
        ram m' = ram m ∧ stdout m' = stdout m ∧
        (∀ i, i ≠ 4 -> reg m' i = reg m i) ∧
        reg m' 4 = STACK_MAX cfg - fs - 4 ∧
        ∀ instrs fuel m0,
          wf m0 -> index instrs (pc_of cfg m0) = Some inst ->
          m = fetched m0 ->
          run cfg (S fuel) instrs m0 =
            Some (Fatal "Stack overflow detected when trying to call function %d"
                        [l] m').
Proof.
  intros Hs Hm Hop Hty l fs Hfl Hmax Hov.
  pose proof (mem_byte m (MAX_FUNCTIONS cfg + l) Hm) as Hf.
  fold (frame_size_of cfg m l) in Hf. fold fs in Hf.
  assert (Hthr : threshold l m = STACK_MAX cfg - fs - 4).
  { unfold threshold. fold fs. apply u8_small. lia. }
  destruct (call_over_threshold inst m Hs Hm Hop Hty Hfl)
    as (m' & Hrun & Hram & Hout & Hreg & Hr4).
  { fold l. rewrite Hthr. lia. }
  exists m'. fold l in Hrun, Hr4. rewrite Hthr in Hr4.
  repeat (split; [assumption|]).
  intros instrs fuel m0 Hm0 Hi ->. simpl.
  rewrite (step_fetch _ _ _ Hs Hm0 Hi). rewrite Hrun. reflexivity.
Qed.

(** ** Operand constraints *)

(** C6: an instruction whose operand modes violate the constraint of its
    opcode aborts the run at once when it is dispatched, with the
    diagnostic of that constraint and with the machine untouched; the loop
    of [vm_x2017] ends with that fatal outcome whatever the fuel, and the
    diagnostics of two constrained opcodes differ. *)
Theorem constraint_violation_is_fatal (inst : inst_t) (m : machine) :
  violates_constraint inst ->
  run_instruction cfg inst m = Fatal (diagnostic (opcode inst)) [] m ∧
  (∀ instrs fuel m0,
     slots_ok cfg -> wf m0 -> index instrs (pc_of cfg m0) = Some inst ->
     run cfg (S fuel) instrs m0 =
       Some (Fatal (diagnostic (opcode inst)) [] (fetched m0))) ∧
  (∀ op, constrained op -> constrained (opcode inst) ->
     diagnostic op = diagnostic (opcode inst) -> op = opcode inst).
Proof.
  intros Hv.
  assert (Hrun : ∀ m1, run_instruction cfg inst m1 =
                       Fatal (diagnostic (opcode inst)) [] m1).
  { intros m1. unfold violates_constraint in Hv. unfold run_instruction.
    destruct (opcode inst); try contradiction;
      rewrite bool_decide_eq_true_2 by assumption; reflexivity. }
  split; [apply Hrun|]. split.
  - intros instrs fuel m0 Hs Hm0 Hi. simpl.
    rewrite (step_fetch _ _ _ Hs Hm0 Hi). rewrite Hrun. reflexivity.
  - intros op [H1 H2] [H3 H4] Hd.
    destruct op, (opcode inst); try reflexivity; try contradiction;
      discriminate Hd.
Qed.

(** ** Operand resolution *)

(** C7: the read of the Address Resolver returns, for a [VAL] operand, the
    literal byte; for a [REG] operand, the content of the register it
    names; for a [STACK] operand, the byte of RAM at the address that its
    symbol resolves to against the current stack pointer; for a [PTR]
    operand, the byte of RAM at the address held in that cell: one more
    level of indirection. *)
Theorem arg_value_reads (arg : arg_t) (m : machine) :
  slots_ok cfg -> wf m -> 0 <= value arg < 256 ->
  let a := u8 (STACK_LOC_EXPR cfg (sp_of cfg m) (value arg)) in
  match type arg with
  | VAL => arg_value cfg arg m = Ok (value arg) m
  | REG => value arg < NUM_REGISTERS ->
           arg_value cfg arg m = Ok (reg m (value arg)) m
  | STACK => ∃ m', arg_value cfg arg m = Ok (mem m a) m'
  | PTR => ∃ m', arg_value cfg arg m = Ok (mem m (mem m a)) m'
  end.
Proof.
  intros Hs Hm Hv a. open_slots Hs.
  unfold arg_value, STACK_LOC, STACK_PTR.
  destruct (type arg).
  - unfold mret, M_ret. rewrite u8_small by assumption. reflexivity.
  - unfold NUM_REGISTERS. intros Hr. apply read_reg_ok; [assumption | lia].
  - exec. simp_state. eexists. reflexivity.
  - exec. simp_state.
    rewrite (u8_small (mem m _)) by (apply mem_byte; assumption).
    eexists. reflexivity.
Qed.

(** ** Addition *)

(** C8: for two register operands whose contents sum to 256 or more, [ADD]
    stores their sum modulo 256 in the destination register, and no fatal
    error is raised. *)
Theorem add_wraps_around (inst : inst_t) (m : machine) :
  wf m -> opcode inst = ADD ->
  type (arg1 inst) = REG -> type (arg2 inst) = REG ->
  0 <= value (arg1 inst) < NUM_REGISTERS ->
  0 <= value (arg2 inst) < NUM_REGISTERS ->
  let a := reg m (value (arg1 inst)) in
  let b := reg m (value (arg2 inst)) in
  256 <= a + b ->
  ∃ m', run_instruction cfg inst m = Ok 0 m' ∧
        reg m' (value (arg1 inst)) = (a + b) mod 256 ∧
        reg m' (value (arg1 inst)) = a + b - 256.
Proof.
  intros Hm Hop H1 H2 Hr1 Hr2 a b Hsum. unfold NUM_REGISTERS in Hr1, Hr2.
  unfold run_instruction. rewrite Hop.
  rewrite bool_decide_eq_false_2 by (rewrite H1, H2; tauto).
  exec. unfold mret, M_ret. eexists. split; [reflexivity|].
  rewrite reg_upd_reg_eq by assumption. fold a b.
  split; [reflexivity|].
  pose proof (reg_byte m (value (arg1 inst)) Hm).
  pose proof (reg_byte m (value (arg2 inst)) Hm).
  unfold a, b in *. u8_lia.
Qed.

(** ** Writing through a literal *)

(** C9: the write helper [mov] ignores a [VAL] destination: it changes no
    register, no byte of RAM and no output, and it does not abort.  A
    [REF] with a [VAL] first operand (and a second one that [REF] accepts)
    runs without fault and changes nothing but the scratch registers. *)
Theorem mov_to_literal_is_ignored (arg : arg_t) (m : machine) :
  type arg = VAL ->
  mov cfg arg m = Ok tt m ∧
  (∀ inst,
     slots_ok cfg -> wf m -> opcode inst = REF -> arg1 inst = arg ->
     type (arg2 inst) = STACK ∨ type (arg2 inst) = PTR ->
     ∃ m', run_instruction cfg inst m = Ok 0 m' ∧
           ram m' = ram m ∧ stdout m' = stdout m ∧
           ∀ i, i ≠ 4 -> i ≠ 5 -> reg m' i = reg m i).
Proof.
  intros Hty.
  assert (Hmov : ∀ m1, mov cfg arg m1 = Ok tt m1).
  { intros m1. unfold mov. rewrite Hty. reflexivity. }
  split; [apply Hmov|].
  intros inst Hs Hm Hop Ha1 Ha2. open_slots Hs.
  assert (Hreg : ∀ m1 v i, i ≠ 4 -> reg (upd_reg m1 4 v) i = reg m1 i).
  { intros m1 v i Hi. destruct (decide (0 <= i)) as [H0|H0].
    - apply reg_upd_reg_ne; lia.
    - unfold reg, index. rewrite !bool_decide_eq_false_2 by assumption.
      reflexivity. }
  unfold run_instruction. rewrite Hop, Ha1.
  rewrite bool_decide_eq_false_2 by (destruct Ha2 as [-> | ->]; intros [? ?]; congruence).
  unfold STACK_LOC, STACK_PTR.
  destruct Ha2 as [Ha2 | Ha2]; rewrite Ha2.
  - rewrite bool_decide_eq_false_2 by discriminate.
    exec. unfold mbind at 1. unfold M_bind. rewrite Hmov.
    unfold mret, M_ret. eexists. split; [reflexivity|].
    split; [reflexivity|]. split; [reflexivity|].
    intros i H4 H5. apply Hreg. exact H4.
  - rewrite bool_decide_eq_true_2 by reflexivity.
    exec. unfold mbind at 1. unfold M_bind. rewrite Hmov.
    unfold mret, M_ret. eexists. split; [reflexivity|].
    split; [reflexivity|]. split; [reflexivity|].
    intros i H4 H5. rewrite !Hreg by exact H4. reflexivity.
Qed.

End Properties.

(** ** The examples *)

(** A closed decidable proposition, by evaluation. *)
Ltac by_compute := apply (bool_decide_unpack _); vm_compute; exact I.

Lemma sample_slots_ok : slots_ok sample_config.
Proof. by_compute. Qed.

Lemma sample_machine_wf : wf sample_machine.
Proof. by_compute. Qed.

Lemma sample_start_wf : wf sample_start.
Proof. by_compute. Qed.

Lemma sample_full_wf : wf sample_full.
Proof. by_compute. Qed.

Lemma sample_operands_wf : wf sample_operands.
Proof. by_compute. Qed.

(** The scenario of the spec: the entry function moves 5 to register 0,
    prints it and returns; the run ends and has printed 5. *)
Example vm_prints_five :
  ∃ m, vm_x2017 sample_config 10 sample_functions
         (replicate 256 sample_ret) sample_blank = Some (Ok tt m) ∧
       stdout m = [5].
Proof. eexists. split; vm_compute; reflexivity. Qed.

(** [sample_program] runs to its end and prints register 0. *)
Example sample_program_runs :
  ∃ m, run sample_config 10 sample_program sample_start = Some (Ok tt m) ∧
       stdout m = [0] ∧ mem m 19 = 7.
Proof. eexists. split; [|split]; vm_compute; reflexivity. Qed.

Lemma call_raises_stack_pointer_witness :
  sp_of sample_config (pushed sample_config 1 sample_machine) = u8 (16 + (2 + 1)).
Proof.
  refine (proj1 (call_raises_stack_pointer sample_config sample_call
                   sample_machine (pushed sample_config 1 sample_machine) 0
                   sample_slots_ok sample_machine_wf eq_refl _)).
  vm_compute. reflexivity.
Defined.

(** C1 as stated fails: the executed [CAL 1] moves the stack pointer from
    16 to 19, not to [16 - (2 + 1)], and the new frame is not lower. *)
Lemma call_lowers_stack_pointer_fails :
  ∃ m', run_instruction sample_config sample_call sample_machine = Ok 0 m' ∧
        sp_of sample_config sample_machine = 16 ∧
        frame_size_of sample_config sample_machine 1 = 1 ∧
        sp_of sample_config m' = 19 ∧
        sp_of sample_config m' ≠
          u8 (sp_of sample_config sample_machine
              - (2 + frame_size_of sample_config sample_machine 1)) ∧
        ¬ sp_of sample_config m' < sp_of sample_config sample_machine.
Proof.
  eexists. split; [vm_compute; reflexivity|].
  vm_compute. repeat split; intros; discriminate.
Qed.

Lemma ret_terminates_iff_sentinel_witness :
  ∃ r m', run_instruction sample_config sample_ret sample_start = Ok r m' ∧
          (r ≠ 0 ↔ link_of sample_config sample_start = 0) ∧
          (link_of sample_config sample_start ≠ 0 ->
           sp_of sample_config m' = link_of sample_config sample_start ∧
           pc_of sample_config m' = return_address_of sample_config sample_start).
Proof.
  exact (proj1 (ret_terminates_iff_sentinel sample_config sample_ret
                  sample_start sample_slots_ok sample_start_wf eq_refl)).
Defined.

Lemma linkage_bytes_above_stack_pointer_witness :
  let m' := pushed sample_config 1 sample_machine in
  mem m' (u8 (sp_of sample_config m' + 1)) = sp_of sample_config sample_machine ∧
  mem m' (u8 (sp_of sample_config m' + 2)) = pc_of sample_config sample_machine.
Proof.
  intros m'.
  destruct (proj1 (linkage_bytes_above_stack_pointer sample_config
                     sample_machine sample_slots_ok sample_machine_wf)
              sample_call 0 m' eq_refl) as (H1 & H2 & _).
  - vm_compute. reflexivity.
  - split; assumption.
Defined.

Lemma call_return_balance_witness :
  ∃ m3, step sample_config sample_program sample_stored = Ok 0 m3 ∧
        sp_of sample_config m3 = sp_of sample_config sample_start.
Proof.
  apply (call_return_balance sample_config sample_program [] sample_start
           sample_called sample_stored sample_call sample_ret).
  - exact sample_slots_ok.
  - exact sample_start_wf.
  - vm_compute. reflexivity.
  - reflexivity.
  - vm_compute. reflexivity.
  - eapply level_plain.
    + vm_compute. reflexivity.
    + simpl. discriminate.
    + simpl. discriminate.
    + vm_compute. reflexivity.
    + vm_compute. reflexivity.
    + constructor; [vm_compute; reflexivity | constructor].
    + apply level_done.
  - vm_compute. reflexivity.
  - reflexivity.
  - vm_compute. discriminate.
Defined.

Lemma call_overflow_aborts_witness :
  ∃ m', run_instruction sample_config sample_call sample_full =
          Fatal "Stack overflow detected when trying to call function %d"
                [1] m' ∧
        ram m' = ram sample_full ∧ reg m' 4 = 250.
Proof.
  destruct (call_overflow_aborts sample_config sample_call sample_full
              sample_slots_ok sample_full_wf eq_refl eq_refl)
    as (m' & H1 & H2 & _ & _ & H4 & _).
  - by_compute.
  - by_compute.
  - by_compute.
  - exists m'. split; [exact H1|]. split; [exact H2 | exact H4].
Defined.

(** C5 as stated fails: when [CAL 1] aborts on the overflow, scratch
    register 4 no longer holds what it held before the call.  (And with a
    frame of 254 bytes the threshold of line 203 wraps around: [CAL 2]
    does not abort although the frame does not fit.) *)
Lemma call_overflow_mutates_scratch :
  (∃ m', run_instruction sample_config sample_call sample_full =
           Fatal "Stack overflow detected when trying to call function %d"
                 [1] m' ∧
         reg sample_full 4 = 0 ∧ reg m' 4 = 250 ∧ m' ≠ sample_full) ∧
  (STACK_MAX sample_config
     < sp_of sample_config sample_wide + 2
       + frame_size_of sample_config sample_wide 2 + 2 ∧
   ∃ m', run_instruction sample_config sample_call_wide sample_wide = Ok 0 m').
Proof.
  split.
  - eexists. split; [vm_compute; reflexivity|].
    split; [vm_compute; reflexivity|]. split; [vm_compute; reflexivity|].
    intros E. apply (f_equal (fun m => reg m 4)) in E.
    vm_compute in E. discriminate E.
  - split; [vm_compute; reflexivity|].
    eexists. vm_compute. reflexivity.
Qed.

Lemma constraint_violation_is_fatal_witness :
  run_instruction sample_config sample_bad_mov sample_machine =
    Fatal "first argument to MOV must not be value typed." [] sample_machine.
Proof.
  exact (proj1 (constraint_violation_is_fatal sample_config sample_bad_mov
                  sample_machine eq_refl)).
Defined.

Lemma arg_value_reads_witness :
  ∃ m', arg_value sample_config {| type := PTR; value := 0 |} sample_operands
        = Ok 9 m'.
Proof.
  destruct (arg_value_reads sample_config {| type := PTR; value := 0 |}
              sample_operands sample_slots_ok sample_operands_wf)
    as [m' H].
  - simpl. lia.
  - exists m'. rewrite H. vm_compute. reflexivity.
Defined.

Lemma add_wraps_around_witness :
  ∃ m', run_instruction sample_config sample_add sample_operands = Ok 0 m' ∧
        reg m' 0 = 44.
Proof.
  destruct (add_wraps_around sample_config sample_add sample_operands
              sample_operands_wf eq_refl eq_refl eq_refl)
    as (m' & H1 & H2 & _).
  - by_compute.
  - by_compute.
  - by_compute.
  - exists m'. split; [exact H1|].
    etransitivity; [exact H2|]. vm_compute. reflexivity.
Defined.

Lemma mov_to_literal_is_ignored_witness :
  mov sample_config {| type := VAL; value := 3 |} sample_operands
  = Ok tt sample_operands.
Proof.
  exact (proj1 (mov_to_literal_is_ignored sample_config
                  {| type := VAL; value := 3 |} sample_operands eq_refl)).
Defined.


(** * More of the engine *)

(** ** What a piece of code leaves unchanged, and when it can abort *)

(** The code [c] leaves the observation [f] of the machine as it was. *)
Definition unchanged {A X : Type} (f : machine -> X) (c : M A) : Prop :=
  ∀ m a m', c m = Ok a m' -> f m' = f m.

(** The code [c] calls [errx] only with a diagnostic that satisfies [P]. *)
Definition aborts_only {A : Type} (P : string -> list Z -> Prop) (c : M A) : Prop :=
  ∀ m fmt args m', c m = Fatal fmt args m' -> P fmt args.

(** The operand is a destination in RAM. *)
Definition in_ram (arg : arg_t) : Prop := type arg = STACK ∨ type arg = PTR.

(** The instruction may write to RAM: a call, or a [MOV] or [REF] whose
    destination is in RAM. *)
Definition may_write_ram (inst : inst_t) : Prop :=
  match opcode inst with
  | CAL => True
  | MOV | REF => in_ram (arg1 inst)
  | RET | ADD | PRINT | NOT | EQU => False
  end.

Lemma unchanged_ret {A X : Type} (f : machine -> X) (a : A) :
  unchanged f (mret a).
Proof. intros m b m' E. injection E as _ <-. reflexivity. Qed.

Lemma unchanged_bind {A B X : Type} (f : machine -> X) (c : M A) (k : A -> M B) :
  unchanged f c -> (∀ a, unchanged f (k a)) -> unchanged f (c ≫= k).
Proof.
  intros Hc Hk m b m' E. apply bind_Ok in E as (a & m1 & E1 & E2).
  rewrite (Hk a _ _ _ E2). apply (Hc _ _ _ E1).
Qed.

Lemma unchanged_errx {A X : Type} (f : machine -> X) fmt args :
  unchanged f (@errx A fmt args).
Proof. intros m a m' E. discriminate E. Qed.

Lemma unchanged_undefined {A X : Type} (f : machine -> X) :
  unchanged f (@undefined A).
Proof. intros m a m' E. discriminate E. Qed.

Lemma unchanged_read_reg {X : Type} (f : machine -> X) (i : Z) :
  unchanged f (read_reg i).
Proof. intros m a m' E. apply read_reg_Ok in E as [-> _]. reflexivity. Qed.

Lemma unchanged_read_ram {X : Type} (f : machine -> X) (a : Z) :
  unchanged f (read_ram a).
Proof. intros m v m' E. apply read_ram_Ok in E as [-> _]. reflexivity. Qed.

Lemma unchanged_for_loop {S X : Type} (f : machine -> X) (l : list Z)
    (body : Z -> S -> M S) (s : S) :
  (∀ i s', unchanged f (body i s')) -> unchanged f (for_loop l body s).
Proof.
  intros Hb. revert s. induction l as [|i l IH]; intros s; simpl.
  - apply unchanged_ret.
  - apply unchanged_bind; [apply Hb | intros s'; apply IH].
Qed.

Lemma ram_write_reg (i v : Z) : unchanged ram (write_reg i v).
Proof. intros m [] m' E. apply write_reg_Ok in E as [-> _]. reflexivity. Qed.

Lemma stdout_write_reg (i v : Z) : unchanged stdout (write_reg i v).
Proof. intros m [] m' E. apply write_reg_Ok in E as [-> _]. reflexivity. Qed.

Lemma stdout_write_ram (a v : Z) : unchanged stdout (write_ram a v).
Proof. intros m [] m' E. apply write_ram_Ok in E as [-> _]. reflexivity. Qed.

Lemma registers_write_ram (a v : Z) : unchanged registers (write_ram a v).
Proof. intros m [] m' E. apply write_ram_Ok in E as [-> _]. reflexivity. Qed.

Lemma ram_printf (v : Z) : unchanged ram (printf v).
Proof. intros m [] m' E. injection E as <-. reflexivity. Qed.

Lemma registers_printf (v : Z) : unchanged registers (printf v).
Proof. intros m [] m' E. injection E as <-. reflexivity. Qed.

Ltac unchanged_tac :=
  repeat first
    [ apply unchanged_ret | apply unchanged_errx | apply unchanged_undefined
    | apply unchanged_read_reg | apply unchanged_read_ram
    | apply ram_write_reg | apply stdout_write_reg | apply stdout_write_ram
    | apply registers_write_ram | apply ram_printf | apply registers_printf
    | apply unchanged_bind; [|intros ?]
    | apply unchanged_for_loop; intros ? ?
    | case_bool_decide
    | assumption ].

Lemma aborts_only_ret {A : Type} P (a : A) : aborts_only P (mret a).
Proof. intros m fmt args m' E. discriminate E. Qed.

Lemma aborts_only_bind {A B : Type} P (c : M A) (k : A -> M B) :
  aborts_only P c -> (∀ a, aborts_only P (k a)) -> aborts_only P (c ≫= k).
Proof.
  intros Hc Hk m fmt args m' E. unfold mbind, M_bind in E.
  destruct (c m) as [a m1|fmt1 args1 m1|] eqn:E1; try discriminate.
  - apply (Hk a _ _ _ _ E).
  - injection E as <- <- <-. apply (Hc _ _ _ _ E1).
Qed.

Lemma aborts_only_errx {A : Type} (P : string -> list Z -> Prop) fmt args :
  P fmt args -> aborts_only P (@errx A fmt args).
Proof. intros HP m fmt' args' m' E. injection E as <- <- _. exact HP. Qed.

Lemma aborts_only_read_reg P (i : Z) : aborts_only P (read_reg i).
Proof. intros m fmt args m' E. unfold read_reg in E. destruct (index _ _); discriminate. Qed.

Lemma aborts_only_read_ram P (a : Z) : aborts_only P (read_ram a).
Proof. intros m fmt args m' E. unfold read_ram in E. destruct (index _ _); discriminate. Qed.

Lemma aborts_only_write_reg P (i v : Z) : aborts_only P (write_reg i v).
Proof. intros m fmt args m' E. unfold write_reg in E. destruct (index _ _); discriminate. Qed.

Lemma aborts_only_write_ram P (a v : Z) : aborts_only P (write_ram a v).
Proof. intros m fmt args m' E. unfold write_ram in E. destruct (index _ _); discriminate. Qed.

Lemma aborts_only_printf P (v : Z) : aborts_only P (printf v).
Proof. intros m fmt args m' E. discriminate E. Qed.

Lemma aborts_only_undefined {A : Type} P : aborts_only P (@undefined A).
Proof. intros m fmt args m' E. discriminate E. Qed.

Lemma aborts_only_for_loop {S : Type} P (l : list Z) (body : Z -> S -> M S)
    (s : S) :
  (∀ i s', aborts_only P (body i s')) -> aborts_only P (for_loop l body s).
Proof.
  intros Hb. revert s. induction l as [|i l IH]; intros s; simpl.
  - apply aborts_only_ret.
  - apply aborts_only_bind; [apply Hb | intros s'; apply IH].
Qed.

Ltac aborts_only_tac :=
  repeat first
    [ apply aborts_only_ret
    | apply aborts_only_read_reg | apply aborts_only_read_ram
    | apply aborts_only_write_reg | apply aborts_only_write_ram
    | apply aborts_only_printf
    | apply aborts_only_bind; [|intros ?]
    | assumption ].

#[global] Instance violates_constraint_dec (inst : inst_t) :
  Decision (violates_constraint inst).
Proof. unfold violates_constraint. destruct (opcode inst); apply _. Defined.

(** An instruction that violates its constraint aborts before it touches
    the machine. *)
Lemma constraint_violation_is_fatal_aux (cfg : config) (inst : inst_t)
    (m : machine) :
  violates_constraint inst ->
  run_instruction cfg inst m = Fatal (diagnostic (opcode inst)) [] m.
Proof.
  intros Hv.
  unfold violates_constraint in Hv. unfold run_instruction.
  destruct (opcode inst); try contradiction;
    rewrite bool_decide_eq_true_2 by assumption; reflexivity.
Qed.

Ltac leaves_reg_tac :=
  repeat first
    [ apply keeps_reg_ret | apply keeps_reg_errx
    | apply keeps_reg_read_reg | apply keeps_reg_read_ram
    | apply keeps_reg_write_ram | apply keeps_reg_printf
    | apply keeps_reg_write_reg; first [assumption | lia | congruence]
    | apply keeps_reg_bind; [|intros ?]
    | case_bool_decide ].

Section More.

Variable cfg : config.

Lemma ram_arg_value (arg : arg_t) : unchanged ram (arg_value cfg arg).
Proof. unfold arg_value, STACK_LOC, STACK_PTR. destruct (type arg); unchanged_tac. Qed.

Lemma stdout_arg_value (arg : arg_t) : unchanged stdout (arg_value cfg arg).
Proof. unfold arg_value, STACK_LOC, STACK_PTR. destruct (type arg); unchanged_tac. Qed.

Lemma stdout_mov (arg : arg_t) : unchanged stdout (mov cfg arg).
Proof. unfold mov, STACK_LOC, STACK_PTR. destruct (type arg); unchanged_tac. Qed.

Lemma ram_mov (arg : arg_t) : ¬ in_ram arg -> unchanged ram (mov cfg arg).
Proof.
  unfold in_ram, mov, STACK_LOC, STACK_PTR. intros Hn.
  destruct (type arg); try tauto; unchanged_tac.
Qed.

Lemma stdout_call_function (l : Z) : unchanged stdout (call_function cfg l).
Proof.
  unfold call_function, STACK_PTR, set_STACK_PTR, PROG_CTR, set_PROG_CTR,
    FRAME_SIZE, INSTR_ADDR. unchanged_tac.
Qed.

Lemma keeps_reg_arg_value (arg : arg_t) (i : Z) :
  i ≠ 4 -> i ≠ 5 -> keeps_reg i (arg_value cfg arg).
Proof.
  intros H4 H5. unfold arg_value, STACK_LOC, STACK_PTR.
  destruct (type arg); leaves_reg_tac.
Qed.

(** ** Reading an operand *)

(** X1: the read of an operand changes no byte of RAM, no output and no
    register other than the scratch registers 4 and 5. *)
Theorem arg_value_read_only (arg : arg_t) (m m' : machine) (v : Z) :
  arg_value cfg arg m = Ok v m' ->
  ram m' = ram m ∧ stdout m' = stdout m ∧
  ∀ i, i ≠ 4 -> i ≠ 5 -> reg m' i = reg m i.
Proof.
  intros E. split; [apply (ram_arg_value arg _ _ _ E)|].
  split; [apply (stdout_arg_value arg _ _ _ E)|].
  intros i H4 H5. apply (keeps_reg_arg_value arg i H4 H5 _ _ _ E).
Qed.

(** The value of an operand on a well-formed machine is a byte. *)
Lemma arg_value_byte (arg : arg_t) (m m' : machine) (v : Z) :
  wf m -> arg_value cfg arg m = Ok v m' -> 0 <= v < 256 ∧ wf m'.
Proof.
  intros Hm E.
  assert (Hm' : wf m') by (eapply keeps_wf_Ok; [apply keeps_wf_arg_value|..]; eassumption).
  split; [|exact Hm'].
  unfold arg_value, STACK_LOC, STACK_PTR in E. destruct (type arg).
  - injection E as <- _. apply u8_byte.
  - apply read_reg_Ok in E as [-> ->]. apply reg_byte. exact Hm.
  - apply bind_Ok in E as (? & ? & _ & E). apply bind_Ok in E as (? & ? & _ & E).
    apply bind_Ok in E as (? & ? & _ & E).
    apply read_ram_Ok in E as [-> ->]. apply mem_byte. exact Hm'.
  - apply bind_Ok in E as (? & ? & _ & E). apply bind_Ok in E as (? & ? & _ & E).
    apply bind_Ok in E as (? & ? & _ & E). apply bind_Ok in E as (? & ? & _ & E).
    apply bind_Ok in E as (? & ? & _ & E). apply bind_Ok in E as (? & ? & _ & E).
    apply read_ram_Ok in E as [-> ->]. apply mem_byte. exact Hm'.
Qed.

(** ** Output *)

(** X2: [PRINT] appends the value of its operand to the output, one line,
    and changes no byte of RAM and no register other than the scratch
    registers. *)
Theorem print_appends_value (inst : inst_t) (m m1 : machine) (v : Z) :
  wf m -> opcode inst = PRINT ->
  arg_value cfg (arg1 inst) m = Ok v m1 ->
  ∃ m', run_instruction cfg inst m = Ok 0 m' ∧
        stdout m' = stdout m ++ [v] ∧ ram m' = ram m ∧
        ∀ i, i ≠ 4 -> i ≠ 5 -> reg m' i = reg m i.
Proof.
  intros Hm Hop E.
  destruct (arg_value_byte _ _ _ _ Hm E) as [Hv Hm1].
  pose proof (ram_arg_value _ _ _ _ E) as Hram.
  pose proof (stdout_arg_value _ _ _ _ E) as Hout.
  assert (Hreg : ∀ i, i ≠ 4 -> i ≠ 5 -> reg m1 i = reg m i)
    by (intros i H4 H5; apply (keeps_reg_arg_value _ i H4 H5 _ _ _ E)).
  unfold run_instruction. rewrite Hop.
  unfold mbind at 1. unfold M_bind. rewrite E.
  exec. rewrite reg_upd_reg_eq by side_tac. rewrite u8_small by assumption.
  eexists. split; [reflexivity|]. simpl.
  split; [rewrite Hout; reflexivity|]. split; [exact Hram|].
  intros i H4 H5. rewrite <- (Hreg i H4 H5).
  destruct (decide (0 <= i)) as [H0|H0].
  - apply reg_upd_reg_ne; lia.
  - unfold reg, index. rewrite !bool_decide_eq_false_2 by assumption. reflexivity.
Qed.

(** X3: no instruction other than [PRINT] writes to the output. *)
Theorem only_print_writes_output (inst : inst_t) (m m' : machine) (r : Z) :
  opcode inst ≠ PRINT ->
  run_instruction cfg inst m = Ok r m' ->
  stdout m' = stdout m.
Proof.
  intros Hop.
  enough (unchanged stdout (run_instruction cfg inst)) as H
    by (intros E; apply (H _ _ _ E)).
  pose proof stdout_arg_value. pose proof stdout_mov.
  pose proof stdout_call_function.
  unfold run_instruction, STACK_LOC, STACK_PTR, set_STACK_PTR, set_PROG_CTR.
  destruct (opcode inst); try contradiction; unchanged_tac; auto.
Qed.

(** ** RAM *)

(** X4: only a call and a [MOV] or [REF] with a [STACK] or [PTR]
    destination write to RAM: every other instruction, [RET] included,
    leaves all of RAM as it was. *)
Theorem register_instructions_keep_ram (inst : inst_t) (m m' : machine) (r : Z) :
  ¬ may_write_ram inst ->
  run_instruction cfg inst m = Ok r m' ->
  ram m' = ram m.
Proof.
  intros Hw.
  enough (unchanged ram (run_instruction cfg inst)) as H
    by (intros E; apply (H _ _ _ E)).
  pose proof ram_arg_value. unfold may_write_ram in Hw.
  unfold run_instruction, STACK_LOC, STACK_PTR, set_STACK_PTR, set_PROG_CTR.
  destruct (opcode inst); try tauto; unchanged_tac; auto using ram_mov.
Qed.

(** ** Aborts *)

Lemma aborts_only_arg_value P (arg : arg_t) : aborts_only P (arg_value cfg arg).
Proof. unfold arg_value, STACK_LOC, STACK_PTR. destruct (type arg); aborts_only_tac. Qed.

Lemma aborts_only_mov P (arg : arg_t) : aborts_only P (mov cfg arg).
Proof. unfold mov, STACK_LOC, STACK_PTR. destruct (type arg); aborts_only_tac. Qed.

Lemma aborts_only_call_function (l : Z) :
  aborts_only
    (fun fmt args =>
       fmt = "Stack overflow detected when trying to call function %d"%string ∧
       args = [l])
    (call_function cfg l).
Proof.
  unfold call_function, STACK_PTR, set_STACK_PTR, PROG_CTR, set_PROG_CTR,
    FRAME_SIZE, INSTR_ADDR.
  aborts_only_tac. case_bool_decide.
  - apply aborts_only_errx. split; reflexivity.
  - aborts_only_tac.
Qed.

(** X5: an instruction aborts the run only for a violated operand
    constraint, with the diagnostic of its opcode and the machine
    untouched, or, for a [CAL] with a literal operand, for a stack
    overflow; no other instruction and no operand mode ever aborts. *)
Theorem aborts_only_on_violation_or_overflow (inst : inst_t) (m m' : machine)
    (fmt : string) (args : list Z) :
  run_instruction cfg inst m = Fatal fmt args m' ->
  (violates_constraint inst ∧ fmt = diagnostic (opcode inst) ∧ args = [] ∧
   m' = m) ∨
  (opcode inst = CAL ∧ type (arg1 inst) = VAL ∧
   fmt = "Stack overflow detected when trying to call function %d"%string ∧
   args = [u8 (value (arg1 inst))]).
Proof.
  intros E.
  destruct (decide (violates_constraint inst)) as [Hv|Hv].
  - left. rewrite (constraint_violation_is_fatal_aux cfg inst m Hv) in E.
    injection E as <- <- <-. auto.
  - right. unfold violates_constraint in Hv. unfold run_instruction in E.
    pose proof (aborts_only_arg_value (fun _ _ => False)) as Ha.
    pose proof (aborts_only_mov (fun _ _ => False)) as Hmv.
    assert (Hno : ∀ (c : M Z), aborts_only (fun _ _ => False) c ->
                   c m = Fatal fmt args m' -> False)
      by (intros c Hc Ec; apply (Hc _ _ _ _ Ec)).
    destruct (opcode inst) eqn:Hop; cbn in Hv;
      try (rewrite bool_decide_eq_false_2 in E by assumption);
      try (exfalso; revert E; apply Hno;
           unfold STACK_LOC, STACK_PTR, set_STACK_PTR, set_PROG_CTR;
           repeat first [ apply Ha | apply Hmv | progress aborts_only_tac
                        | case_bool_decide ]; fail).
    assert (Hty : type (arg1 inst) = VAL)
      by (destruct (decide (type (arg1 inst) = VAL)); tauto).
    unfold mbind, M_bind in E.
    destruct (call_function cfg (u8 (value (arg1 inst))) m)
      as [[] m1|fmt1 args1 m1|] eqn:Ec; try discriminate.
    injection E as <- <- <-.
    destruct (aborts_only_call_function _ _ _ _ _ Ec) as [-> ->]. auto.
Qed.

(** ** [NOT] and [EQU] *)

Lemma upd_reg_twice_id (m : machine) (i a b : Z) :
  wf m -> 0 <= i < 8 -> u8 b = reg m i ->
  upd_reg (upd_reg m i a) i b = m.
Proof.
  intros (_ & Hg & _) Hi Hb. unfold upd_reg; simpl.
  rewrite list_insert_insert_eq. rewrite Hb.
  destruct (index_is_Some (registers m) i) as [v Hv].
  { rewrite Hg. change (Z.to_nat NUM_REGISTERS) with 8%nat. lia. }
  unfold reg. rewrite Hv. simpl.
  unfold index in Hv. rewrite bool_decide_eq_true_2 in Hv by lia.
  rewrite list_insert_id by exact Hv. destruct m; reflexivity.
Qed.

Lemma run_NOT (inst : inst_t) (m : machine) :
  wf m -> opcode inst = NOT -> type (arg1 inst) = REG ->
  0 <= value (arg1 inst) < 8 ->
  run_instruction cfg inst m =
    Ok 0 (upd_reg m (value (arg1 inst)) (Z.lnot (reg m (value (arg1 inst))))).
Proof.
  intros Hm Hop Hty Hr. unfold run_instruction. rewrite Hop.
  rewrite bool_decide_eq_false_2 by (rewrite Hty; tauto).
  exec. reflexivity.
Qed.

Lemma run_EQU (inst : inst_t) (m : machine) :
  wf m -> opcode inst = EQU -> type (arg1 inst) = REG ->
  0 <= value (arg1 inst) < 8 ->
  run_instruction cfg inst m =
    Ok 0 (upd_reg m (value (arg1 inst))
            (if bool_decide (reg m (value (arg1 inst)) = 0) then 1 else 0)).
Proof.
  intros Hm Hop Hty Hr. unfold run_instruction. rewrite Hop.
  rewrite bool_decide_eq_false_2 by (rewrite Hty; tauto).
  exec. reflexivity.
Qed.

(** X7: [NOT] complements a register, and applied twice it restores the
    whole machine. *)
Theorem not_not_restores (inst : inst_t) (m : machine) :
  wf m -> opcode inst = NOT -> type (arg1 inst) = REG ->
  0 <= value (arg1 inst) < NUM_REGISTERS ->
  ∃ m1, run_instruction cfg inst m = Ok 0 m1 ∧
        reg m1 (value (arg1 inst)) = 255 - reg m (value (arg1 inst)) ∧
        run_instruction cfg inst m1 = Ok 0 m.
Proof.
  intros Hm Hop Hty Hr. unfold NUM_REGISTERS in Hr.
  pose proof (reg_byte m (value (arg1 inst)) Hm) as Hb.
  eexists. split; [apply run_NOT; assumption|].
  rewrite reg_upd_reg_eq by assumption.
  split; [unfold Z.lnot; u8_lia|].
  rewrite run_NOT by (try apply wf_upd_reg; assumption).
  f_equal. rewrite reg_upd_reg_eq by assumption.
  apply upd_reg_twice_id; [assumption..|].
  unfold Z.lnot. u8_lia.
Qed.

(** X8: [EQU] leaves 1 in a register that held 0 and 0 in one that held
    anything else; applied once more it leaves 1 exactly when the register
    held something other than 0 at first.  Nothing else changes. *)
Theorem equ_tests_zero (inst : inst_t) (m : machine) :
  wf m -> opcode inst = EQU -> type (arg1 inst) = REG ->
  0 <= value (arg1 inst) < NUM_REGISTERS ->
  let v := reg m (value (arg1 inst)) in
  ∃ m1 m2,
    run_instruction cfg inst m = Ok 0 m1 ∧
    reg m1 (value (arg1 inst)) = (if bool_decide (v = 0) then 1 else 0) ∧
    ram m1 = ram m ∧ stdout m1 = stdout m ∧
    (∀ i, i ≠ value (arg1 inst) -> reg m1 i = reg m i) ∧
    run_instruction cfg inst m1 = Ok 0 m2 ∧
    reg m2 (value (arg1 inst)) = (if bool_decide (v = 0) then 0 else 1).
Proof.
  intros Hm Hop Hty Hr v. unfold NUM_REGISTERS in Hr.
  eexists _, _. split; [apply run_EQU; assumption|].
  rewrite reg_upd_reg_eq by assumption. fold v.
  split; [case_bool_decide; reflexivity|].
  split; [reflexivity|]. split; [reflexivity|]. split.
  - intros i Hi. apply reg_upd_reg_ne; [lia | congruence].
  - split; [apply run_EQU; try apply wf_upd_reg; assumption|].
    rewrite !reg_upd_reg_eq by side_tac. fold v.
    destruct (bool_decide (v = 0)); reflexivity.
Qed.

(** ** [ADD] *)

(** X9: [ADD] leaves the sum modulo 256 in its first register, whatever
    the sum (the sum itself below 256, twice the content when both
    operands name the same register), and changes nothing else. *)
Theorem add_changes_only_destination (inst : inst_t) (m : machine) :
  wf m -> opcode inst = ADD ->
  type (arg1 inst) = REG -> type (arg2 inst) = REG ->
  0 <= value (arg1 inst) < NUM_REGISTERS ->
  0 <= value (arg2 inst) < NUM_REGISTERS ->
  let a := reg m (value (arg1 inst)) in
  let b := reg m (value (arg2 inst)) in
  ∃ m', run_instruction cfg inst m = Ok 0 m' ∧
        reg m' (value (arg1 inst)) = (a + b) mod 256 ∧
        (a + b < 256 -> reg m' (value (arg1 inst)) = a + b) ∧
        ram m' = ram m ∧ stdout m' = stdout m ∧
        ∀ i, i ≠ value (arg1 inst) -> reg m' i = reg m i.
Proof.
  intros Hm Hop H1 H2 Hr1 Hr2 a b. unfold NUM_REGISTERS in Hr1, Hr2.
  pose proof (reg_byte m (value (arg1 inst)) Hm) as Ha.
  pose proof (reg_byte m (value (arg2 inst)) Hm) as Hb.
  unfold run_instruction. rewrite Hop.
  rewrite bool_decide_eq_false_2 by (rewrite H1, H2; tauto).
  exec. unfold mret, M_ret. eexists. split; [reflexivity|].
  rewrite reg_upd_reg_eq by assumption. fold a b.
  split; [reflexivity|]. split.
  - intros Hlt. apply u8_small. unfold a, b. lia.
  - split; [reflexivity|]. split; [reflexivity|].
    intros i Hi. apply reg_upd_reg_ne; [lia | congruence].
Qed.

(** ** [MOV] and [REF] *)

(** An executed [MOV] leaves the value of its source in register 4 and
    hands over to [mov]. *)
Lemma run_MOV (inst : inst_t) (m m1 : machine) (v : Z) :
  wf m -> opcode inst = MOV -> type (arg1 inst) ≠ VAL ->
  arg_value cfg (arg2 inst) m = Ok v m1 ->
  run_instruction cfg inst m =
    (mov cfg (arg1 inst) ≫= fun _ => mret 0) (upd_reg m1 4 v).
Proof.
  intros Hm Hop Hty E.
  destruct (arg_value_byte _ _ _ _ Hm E) as [_ Hm1].
  unfold run_instruction. rewrite Hop.
  rewrite bool_decide_eq_false_2 by assumption.
  unfold mbind at 1. unfold M_bind at 1. rewrite E.
  exec1. reflexivity.
Qed.

(** X10: a [MOV] into a register followed by a read of that register
    gives back the byte that the source held, whatever the mode of the
    source. *)
Theorem mov_register_round_trip (inst : inst_t) (m m1 : machine) (v : Z) :
  wf m -> opcode inst = MOV -> type (arg1 inst) = REG ->
  0 <= value (arg1 inst) < NUM_REGISTERS ->
  arg_value cfg (arg2 inst) m = Ok v m1 ->
  ∃ m', run_instruction cfg inst m = Ok 0 m' ∧
        arg_value cfg (arg1 inst) m' = Ok v m'.
Proof.
  intros Hm Hop Hty Hr E. unfold NUM_REGISTERS in Hr.
  destruct (arg_value_byte _ _ _ _ Hm E) as [Hv Hm1].
  assert (Hnv : type (arg1 inst) ≠ VAL) by (rewrite Hty; discriminate).
  rewrite (run_MOV _ _ _ _ Hm Hop Hnv E).
  unfold mov, arg_value. rewrite Hty.
  exec. eexists. split; [reflexivity|].
  rewrite read_reg_ok by side_tac.
  simp_state. rewrite u8_small by assumption. reflexivity.
Qed.

(** X11: a [MOV] into a stack symbol followed by a read of that symbol
    gives back the byte that the source held. *)
Theorem mov_stack_round_trip (inst : inst_t) (m m1 : machine) (v : Z) :
  slots_ok cfg -> wf m -> opcode inst = MOV -> type (arg1 inst) = STACK ->
  arg_value cfg (arg2 inst) m = Ok v m1 ->
  ∃ m' m'', run_instruction cfg inst m = Ok 0 m' ∧
            arg_value cfg (arg1 inst) m' = Ok v m''.
Proof.
  intros Hs Hm Hop Hty E. open_slots Hs.
  destruct (arg_value_byte _ _ _ _ Hm E) as [Hv Hm1].
  assert (Hnv : type (arg1 inst) ≠ VAL) by (rewrite Hty; discriminate).
  rewrite (run_MOV _ _ _ _ Hm Hop Hnv E).
  unfold mov, arg_value, STACK_LOC, STACK_PTR. rewrite Hty.
  exec. eexists _, _. split; [reflexivity|].
  exec. simp_state. rewrite u8_small by assumption. reflexivity.
Qed.

(** X12: [REF] with a [PTR] source does exactly what [MOV] does with the
    same symbol as a [STACK] source: taking the address behind a pointer
    is reading the pointer.  (For a [VAL] destination they differ: [MOV]
    aborts, [REF] does not.) *)
Theorem ref_of_pointer_is_mov_of_symbol (dst : arg_t) (x : Z) (m : machine) :
  slots_ok cfg -> wf m -> type dst ≠ VAL ->
  run_instruction cfg
    {| opcode := REF; arg1 := dst; arg2 := {| type := PTR; value := x |} |} m
  = run_instruction cfg
      {| opcode := MOV; arg1 := dst; arg2 := {| type := STACK; value := x |} |} m.
Proof.
  intros Hs Hm Hty. open_slots Hs.
  unfold run_instruction, arg_value, STACK_LOC, STACK_PTR. cbn [opcode arg1 arg2 type value].
  rewrite bool_decide_eq_false_2 by (intros [? ?]; congruence).
  rewrite bool_decide_eq_true_2 by reflexivity.
  rewrite bool_decide_eq_false_2 by assumption.
  exec. simp_state. reflexivity.
Qed.

(** X13: a pointer made by [REF] aliases the symbol it was taken from:
    after [REF STACK y, STACK x] a [MOV PTR y, VAL v] stores [v] in the
    symbol [x], whether or not [x] and [y] are the same symbol. *)
Theorem store_through_reference (x y v : Z) (m : machine) :
  slots_ok cfg -> wf m ->
  ∃ m1 m2 m3,
    run_instruction cfg
      {| opcode := REF; arg1 := {| type := STACK; value := y |};
         arg2 := {| type := STACK; value := x |} |} m = Ok 0 m1 ∧
    run_instruction cfg
      {| opcode := MOV; arg1 := {| type := PTR; value := y |};
         arg2 := {| type := VAL; value := v |} |} m1 = Ok 0 m2 ∧
    arg_value cfg {| type := STACK; value := x |} m2 = Ok (u8 v) m3.
Proof.
  intros Hs Hm. open_slots Hs.
  eexists _, _, _. split; [|split].
  - unfold run_instruction, mov, STACK_LOC, STACK_PTR. cbn [opcode arg1 arg2 type value].
    rewrite bool_decide_eq_false_2 by (intros [? ?]; congruence).
    rewrite bool_decide_eq_false_2 by discriminate.
    exec. reflexivity.
  - unfold run_instruction, arg_value, mov, STACK_LOC, STACK_PTR. cbn [opcode arg1 arg2 type value].
    rewrite bool_decide_eq_false_2 by discriminate.
    exec. reflexivity.
  - unfold arg_value, STACK_LOC, STACK_PTR. cbn [opcode arg1 arg2 type value].
    exec. simp_state. reflexivity.
Qed.

(** ** What a call changes *)

(** X14: an executed [CAL] prints nothing, leaves every register other
    than the scratch registers, the stack pointer and the program counter
    as it was, and writes no byte of RAM other than the two header bytes
    above the new stack pointer: the frame of the caller and the locals of
    the callee are not initialised or cleared. *)
Theorem call_frame_effect (inst : inst_t) (m m' : machine) (r : Z) :
  slots_ok cfg -> wf m -> opcode inst = CAL ->
  run_instruction cfg inst m = Ok r m' ->
  stdout m' = stdout m ∧
  (∀ i, i ≠ 4 -> i ≠ 5 -> i ≠ SP_REG cfg -> i ≠ PC_REG cfg ->
        reg m' i = reg m i) ∧
  (∀ a, a ≠ u8 (sp_of cfg m' + 1) -> a ≠ u8 (sp_of cfg m' + 2) ->
        mem m' a = mem m a).
Proof.
  intros Hs Hm Hop Hr.
  destruct (run_CAL _ _ _ _ _ Hop Hr) as (_ & _ & Hc).
  destruct (call_function_Ok _ _ _ _ Hs Hm (u8_byte _) Hc) as (_ & _ & ->).
  split; [reflexivity|]. split.
  - intros i H4 H5 Hsp Hpc. apply reg_pushed_other; assumption.
  - intros a H1 H2. apply mem_pushed_other; assumption.
Qed.

(** X15: an executed [CAL] continues at the entry address recorded for the
    label in the function-address table, when that table entry lies at or
    below the stack pointer and the frame fits the byte-wide check
    ([frame_size + 4 <= STACK_MAX <= 255]). *)
Theorem call_jumps_to_entry (inst : inst_t) (m m' : machine) (r : Z) :
  slots_ok cfg -> wf m -> opcode inst = CAL ->
  run_instruction cfg inst m = Ok r m' ->
  let l := u8 (value (arg1 inst)) in
  l <= sp_of cfg m ->
  frame_size_of cfg m l + 4 <= STACK_MAX cfg <= 255 ->
  pc_of cfg m' = mem m l.
Proof.
  intros Hs Hm Hop Hr l Hl Hmax.
  destruct (run_CAL _ _ _ _ _ Hop Hr) as (_ & _ & Hc).
  destruct (call_function_Ok _ _ _ _ Hs Hm (u8_byte _) Hc) as (_ & Hthr & ->).
  fold l in Hthr. fold l.
  destruct (check_passed_no_wrap cfg l m Hm) as (H0 & Hf & Hfit);
    [lia | exact Hthr |].
  pose proof (u8_byte (value (arg1 inst))) as Hlb. fold l in Hlb.
  apply pc_of_pushed; try assumption;
    rewrite sp_of_pushed by assumption;
    rewrite (u8_small (sp_of cfg m + 2 + _)) by lia;
    rewrite u8_small by lia; lia.
Qed.

(** X16: a call of a function that returns at once gives the machine back
    as it was, but for the scratch registers and the two stale header
    bytes: the stack pointer, the program counter, the other registers,
    the output and the rest of RAM are those before the call.  (The
    caller's stack pointer is not the sentinel 0.) *)
Theorem call_then_return_restores (c ret : inst_t) (m m1 : machine) (r : Z) :
  slots_ok cfg -> wf m -> opcode c = CAL -> opcode ret = RET ->
  run_instruction cfg c m = Ok r m1 ->
  sp_of cfg m ≠ 0 ->
  ∃ m2, run_instruction cfg ret m1 = Ok 0 m2 ∧
        sp_of cfg m2 = sp_of cfg m ∧ pc_of cfg m2 = pc_of cfg m ∧
        stdout m2 = stdout m ∧
        (∀ i, i ≠ 4 -> i ≠ 5 -> reg m2 i = reg m i) ∧
        (∀ a, a ≠ u8 (sp_of cfg m1 + 1) -> a ≠ u8 (sp_of cfg m1 + 2) ->
              mem m2 a = mem m a).
Proof.
  intros Hs Hm Hc Hret Hr Hsp0.
  destruct (run_CAL _ _ _ _ _ Hc Hr) as (_ & _ & Hcall).
  destruct (call_function_Ok _ _ _ _ Hs Hm (u8_byte _) Hcall) as (_ & _ & Hm1).
  assert (Hout : stdout m1 = stdout m) by (rewrite Hm1; reflexivity).
  assert (Hreg : ∀ i, i ≠ 4 -> i ≠ 5 -> i ≠ SP_REG cfg -> i ≠ PC_REG cfg ->
                      reg m1 i = reg m i)
    by (intros; rewrite Hm1; apply reg_pushed_other; assumption).
  assert (Hmem : ∀ a, a ≠ u8 (sp_of cfg m1 + 1) -> a ≠ u8 (sp_of cfg m1 + 2) ->
                      mem m1 a = mem m a)
    by (rewrite Hm1; intros; apply mem_pushed_other; assumption).
  assert (Hwf1 : wf m1)
    by (eapply keeps_wf_Ok; [apply (keeps_wf_run_instruction cfg c)|..]; eassumption).
  assert (Hlink : link_of cfg m1 = sp_of cfg m)
    by (rewrite Hm1; apply link_of_pushed; assumption).
  assert (Hra : return_address_of cfg m1 = pc_of cfg m)
    by (rewrite Hm1; apply return_address_of_pushed; assumption).
  rewrite run_RET by assumption.
  rewrite bool_decide_eq_false_2 by congruence.
  exists (returned cfg m1). split; [reflexivity|].
  split; [rewrite sp_of_returned by assumption; exact Hlink|].
  split; [rewrite pc_of_returned by assumption; exact Hra|].
  split; [exact Hout|]. split.
  - intros i H4 H5.
    destruct (decide (i = SP_REG cfg)) as [->|Hisp].
    { fold (sp_of cfg (returned cfg m1)). fold (sp_of cfg m).
      rewrite sp_of_returned by assumption. exact Hlink. }
    destruct (decide (i = PC_REG cfg)) as [->|Hipc].
    { fold (pc_of cfg (returned cfg m1)). fold (pc_of cfg m).
      rewrite pc_of_returned by assumption. exact Hra. }
    rewrite <- (Hreg i H4 H5 Hisp Hipc).
    pose proof Hs as Hs'. open_slots Hs'.
    unfold returned. cbv zeta.
    repeat first [rewrite reg_upd_mem | rewrite reg_upd_reg_ne by lia].
    reflexivity.
  - intros a H1 H2. rewrite mem_returned. apply Hmem; assumption.
Qed.

(** ** The bootstrap *)

(** A loop that ends has run its body, with success, for every index. *)
Lemma for_loop_Ok_each {S : Type} (l : list Z) (body : Z -> S -> M S)
    (s s' : S) (m m' : machine) :
  for_loop l body s m = Ok s' m' ->
  ∀ i, i ∈ l -> ∃ s1 m1 s2 m2, body i s1 m1 = Ok s2 m2.
Proof.
  revert s m. induction l as [|j l IH]; intros s m E i Hi.
  - inversion Hi.
  - simpl in E. apply bind_Ok in E as (s1 & m1 & E1 & E2).
    apply elem_of_cons in Hi as [->|Hi].
    + eauto.
    + apply (IH _ _ E2 i Hi).
Qed.

Lemma index_elem_of {A : Type} (l : list A) (i : Z) (x : A) :
  index l i = Some x -> x ∈ l.
Proof.
  unfold index. case_bool_decide; [|discriminate].
  apply list_elem_of_lookup_2.
Qed.

(** A function that was loaded is in the table, and is empty or ends with
    [RET]. *)
Lemma load_function_Ok (functions : list func_t) (i : Z)
    (st st' : list inst_t * Z) (m m' : machine) :
  load_function cfg functions i st m = Ok st' m' ->
  ∃ func, index functions (MAX_FUNCTIONS cfg - i - 1) = Some func ∧
          (size func = 0 ∨
           ∃ last, index (instructions func) (size func - 1) = Some last ∧
                   opcode last = RET).
Proof.
  unfold load_function. intros E.
  destruct (index functions _) as [func|]; [|discriminate].
  exists func. split; [reflexivity|].
  case_bool_decide as Hsz; [left; exact Hsz|]. right.
  apply bind_Ok in E as (_ & m1 & _ & E).
  destruct (index (instructions func) _) as [last|]; [|discriminate].
  exists last. split; [reflexivity|].
  case_bool_decide as Hop; [discriminate|].
  destruct (decide (opcode last = RET)); [assumption|contradiction].
Qed.

(** X17: when the bootstrap succeeds, the function table has an entry for
    each of the [MAX_FUNCTIONS] indices, and every function in it that is
    not empty ends with a [RET]. *)
Theorem bootstrap_checks_functions (functions : list func_t)
    (instrs0 instrs : list inst_t) (m0 m : machine) (k : Z) :
  bootstrap cfg functions instrs0 m0 = Ok instrs m ->
  0 <= k < MAX_FUNCTIONS cfg ->
  ∃ func, index functions k = Some func ∧
          (size func ≠ 0 ->
           ∃ last, index (instructions func) (size func - 1) = Some last ∧
                   opcode last = RET).
Proof.
  intros Hb Hk. unfold bootstrap in Hb.
  apply bind_Ok in Hb as (_ & m1 & _ & Hb).
  apply bind_Ok in Hb as (st & m2 & Hload & _).
  destruct (for_loop_Ok_each _ _ _ _ _ _ Hload (MAX_FUNCTIONS cfg - k - 1))
    as (s1 & ma & s2 & mb & E).
  { apply elem_of_seqZ. lia. }
  apply load_function_Ok in E as (func & Hi & Hf).
  replace (MAX_FUNCTIONS cfg - (MAX_FUNCTIONS cfg - k - 1) - 1) with k in Hi by lia.
  exists func. split; [exact Hi|].
  intros Hsz. destruct Hf as [Hz|Hf]; [contradiction | exact Hf].
Qed.

(** The content of one cell of RAM. *)
Lemma cell_write_ram (a b v : Z) :
  b ≠ a -> unchanged (fun m => mem m a) (write_ram b v).
Proof.
  intros Hne m [] m' E. apply write_ram_Ok in E as [-> Hb].
  apply mem_upd_mem_ne; [lia | exact Hne].
Qed.

Lemma unchanged_copy_instructions {X : Type} (f : machine -> X) (func : func_t)
    (st : list inst_t * Z) :
  unchanged f (copy_instructions func st).
Proof.
  unfold copy_instructions. apply unchanged_for_loop. intros j [instrs idx].
  destruct (index (instructions func) j); [|apply unchanged_undefined].
  destruct (index instrs idx); [apply unchanged_ret | apply unchanged_undefined].
Qed.

(** The loader leaves alone the table entry of a label that no function
    of the table bears. *)
Lemma cell_load_function (functions : list func_t) (i a : Z)
    (st : list inst_t * Z) :
  0 <= a < MAX_FUNCTIONS cfg ->
  (∀ func, func ∈ functions -> size func ≠ 0 ->
           0 <= label func ∧ label func ≠ a) ->
  unchanged (fun m => mem m a) (load_function cfg functions i st).
Proof.
  intros Ha Hl. unfold load_function, set_INSTR_ADDR, set_FRAME_SIZE.
  destruct (index functions _) as [func|] eqn:Hi; [|apply unchanged_undefined].
  apply index_elem_of in Hi.
  case_bool_decide as Hsz; [apply unchanged_ret|].
  destruct (Hl func Hi Hsz) as [H0 Hne].
  apply unchanged_bind; [apply cell_write_ram; exact Hne|intros _].
  destruct (index (instructions func) _); [|apply unchanged_undefined].
  case_bool_decide; [apply unchanged_errx|].
  apply unchanged_bind; [apply unchanged_copy_instructions|intros st'].
  apply unchanged_bind; [apply cell_write_ram; lia|intros _].
  apply unchanged_ret.
Qed.

(** Lines 29-30: every entry of the function-address table is set to the
    default. *)
Lemma fill_table (l : list Z) (v a : Z) (m m' : machine) :
  for_loop l (fun i _ => write_ram i v) tt m = Ok tt m' ->
  a ∈ l ∨ mem m a = u8 v -> mem m' a = u8 v.
Proof.
  revert m. induction l as [|i l IH]; intros m E Ha.
  - simpl in E. injection E as <-. destruct Ha as [Ha|Ha]; [inversion Ha|exact Ha].
  - simpl in E. apply bind_Ok in E as ([] & m1 & E1 & E2).
    apply (IH _ E2). apply write_ram_Ok in E1 as [-> Hi].
    destruct (decide (i = a)) as [->|Hne].
    + right. unfold mem, upd_mem; simpl. rewrite index_insert_eq by exact Hi.
      reflexivity.
    + destruct Ha as [Ha|Ha].
      * apply elem_of_cons in Ha as [->|Ha]; [contradiction|left; exact Ha].
      * right. rewrite mem_upd_mem_ne by lia. exact Ha.
Qed.

(** X18: a function table without an entry function is rejected: when no
    function of the table that is not empty bears the label [MAIN_FUNC]
    (and the default of the address table is the byte 255 that line 56
    tests for), the bootstrap does not succeed, and whenever the bootstrap
    aborts, it is for a function that does not end with [RET] or for the
    missing entry function. *)
Theorem bootstrap_requires_main (functions : list func_t)
    (instrs0 : list inst_t) (m0 : machine) :
  0 <= MAIN_FUNC cfg < MAX_FUNCTIONS cfg ->
  u8 (MAX_INSTRUCTIONS cfg) = 255 ->
  (∀ func, func ∈ functions -> size func ≠ 0 ->
           0 <= label func ∧ label func ≠ MAIN_FUNC cfg) ->
  match bootstrap cfg functions instrs0 m0 with
  | Ok _ _ => False
  | Fatal fmt _ _ =>
      fmt = "No main function found"%string ∨
      fmt = "No return instruction found at end of function %d"%string
  | Undefined => True
  end.
Proof.
  intros Hmain Hdef Hl.
  destruct (bootstrap cfg functions instrs0 m0) as [instrs m|fmt args m|] eqn:Hb;
    [|clear Hmain Hdef Hl|exact I].
  - unfold bootstrap in Hb.
    apply bind_Ok in Hb as ([] & m1 & Hfill & Hb).
    apply bind_Ok in Hb as (st & m2 & Hload & Hb).
    apply bind_Ok in Hb as (a & m3 & Ha & Hb).
    apply bind_Ok in Hb as ([] & m4 & Hset & Hb).
    apply bind_Ok in Hb as (pc & m5 & Hpc & Hb).
    case_bool_decide as Hne; [discriminate|]. apply Hne.
    apply read_ram_Ok in Ha as [-> ->].
    apply write_reg_Ok in Hset as [-> Hr].
    apply read_reg_Ok in Hpc as [-> ->].
    unfold reg, upd_reg; simpl. rewrite index_insert_eq by exact Hr. simpl.
    assert (Hm1 : mem m1 (MAIN_FUNC cfg) = u8 (MAX_INSTRUCTIONS cfg)).
    { apply (fill_table _ _ _ _ _ Hfill). left. apply elem_of_seqZ. lia. }
    assert (Hm2 : mem m2 (MAIN_FUNC cfg) = mem m1 (MAIN_FUNC cfg)).
    { assert (Hbody : ∀ i s', unchanged (fun m => mem m (MAIN_FUNC cfg))
                                  (load_function cfg functions i s'))
        by (intros i s'; apply cell_load_function; assumption).
      apply (unchanged_for_loop _ _ _ _ Hbody _ _ _ Hload). }
    rewrite Hm2, Hm1, Hdef. reflexivity.
  - revert Hb.
    enough (aborts_only
              (fun fmt _ =>
                 fmt = "No main function found"%string ∨
                 fmt = "No return instruction found at end of function %d"%string)
              (bootstrap cfg functions instrs0)) as H
      by (intros Hb; apply (H _ _ _ _ Hb)).
    unfold bootstrap, INSTR_ADDR, FRAME_SIZE, STACK_PTR, set_STACK_PTR,
      PROG_CTR, set_PROG_CTR.
    apply aborts_only_bind; [apply aborts_only_for_loop; intros; aborts_only_tac|intros _].
    apply aborts_only_bind.
    { apply aborts_only_for_loop. intros i s'.
      unfold load_function, set_INSTR_ADDR, set_FRAME_SIZE.
      destruct (index functions _) as [func|]; [|apply aborts_only_undefined].
      case_bool_decide; [apply aborts_only_ret|].
      apply aborts_only_bind; [apply aborts_only_write_ram|intros _].
      destruct (index (instructions func) _); [|apply aborts_only_undefined].
      case_bool_decide; [apply aborts_only_errx; right; reflexivity|].
      apply aborts_only_bind; [|intros ?; aborts_only_tac].
      unfold copy_instructions. apply aborts_only_for_loop. intros j [ins idx].
      destruct (index (instructions func) j); [|apply aborts_only_undefined].
      destruct (index ins idx); [apply aborts_only_ret | apply aborts_only_undefined]. }
    intros st. aborts_only_tac. case_bool_decide.
    + apply aborts_only_errx. left. reflexivity.
    + aborts_only_tac.
Qed.

Lemma stdout_bootstrap (functions : list func_t) (instrs0 : list inst_t) :
  unchanged stdout (bootstrap cfg functions instrs0).
Proof.
  unfold bootstrap, INSTR_ADDR, FRAME_SIZE, STACK_PTR, set_STACK_PTR,
    PROG_CTR, set_PROG_CTR.
  apply unchanged_bind; [unchanged_tac|intros _].
  apply unchanged_bind; [|intros st; unchanged_tac].
  apply unchanged_for_loop. intros i s'.
  unfold load_function, set_INSTR_ADDR, set_FRAME_SIZE.
  destruct (index functions _) as [func|]; [|apply unchanged_undefined].
  case_bool_decide; [apply unchanged_ret|].
  apply unchanged_bind; [apply stdout_write_ram|intros _].
  destruct (index (instructions func) _); [|apply unchanged_undefined].
  case_bool_decide; [apply unchanged_errx|].
  apply unchanged_bind; [apply unchanged_copy_instructions|intros st'].
  unchanged_tac.
Qed.

(** X19: when the first instruction of the entry function is a [RET], the
    whole run of [vm_x2017] ends normally right after the bootstrap, and
    nothing has been printed. *)
Theorem entry_return_ends_run (fuel : nat) (functions : list func_t)
    (instrs0 instrs : list inst_t) (m0 m : machine) (ret : inst_t) :
  slots_ok cfg -> wf m0 ->
  bootstrap cfg functions instrs0 m0 = Ok instrs m ->
  index instrs (pc_of cfg m) = Some ret -> opcode ret = RET ->
  ∃ m', vm_x2017 cfg (S fuel) functions instrs0 m0 = Some (Ok tt m') ∧
        stdout m' = stdout m0 ∧ ram m' = ram m.
Proof.
  intros Hs Hm0 Hb Hi Hop.
  destruct (bootstrap_sentinel cfg _ _ _ _ _ Hm0 Hb) as [Hm Hlink].
  unfold vm_x2017. rewrite Hb. simpl.
  rewrite (step_RET cfg _ _ _ Hs Hm Hi Hop).
  rewrite bool_decide_eq_true_2 by exact Hlink. simpl.
  eexists. split; [reflexivity|]. simpl.
  split; [apply (stdout_bootstrap _ _ _ _ _ Hb) | reflexivity].
Qed.

(** ** The flat instruction array *)

(** The loop of lines 48-49, from the instruction [j0] of the function on,
    for [n] instructions. *)
Lemma copy_loop (func : func_t) (n : nat) :
  ∀ (j0 idx idx' : Z) (instrs instrs' : list inst_t) (m m' : machine),
    for_loop (seqZ j0 (Z.of_nat n))
      (fun j '(instrs, instr_idx) =>
         match index (instructions func) j, index instrs instr_idx with
         | Some i, Some _ =>
             mret (<[Z.to_nat instr_idx := i]> instrs, u8 (instr_idx + 1))
         | _, _ => undefined
         end) (instrs, idx) m = Ok (instrs', idx') m' ->
    0 <= idx < 256 -> idx + Z.of_nat n <= 256 ->
    m' = m ∧ idx' = u8 (idx + Z.of_nat n) ∧
    length instrs' = length instrs ∧
    (∀ t, 0 <= t < Z.of_nat n ->
          is_Some (index (instructions func) (j0 + t)) ∧
          index instrs' (idx + t) = index (instructions func) (j0 + t)) ∧
    (∀ k, k < idx ∨ idx + Z.of_nat n <= k -> index instrs' k = index instrs k).
Proof.
  induction n as [|n IH]; intros j0 idx idx' instrs instrs' m m' E Hidx Hfit.
  - simpl in E. injection E as <- <- <-.
    split; [reflexivity|]. split; [rewrite Z.add_0_r, u8_small; [reflexivity|exact Hidx]|].
    split; [reflexivity|]. split; [intros t Ht; lia | reflexivity].
  - rewrite seqZ_cons in E by lia. simpl in E.
    apply bind_Ok in E as ([instrs1 idx1] & m1 & E1 & E2).
    destruct (index (instructions func) j0) as [i|] eqn:Hi; [|discriminate].
    destruct (index instrs idx) as [old|] eqn:Hold; [|discriminate].
    injection E1 as <- <- <-.
    replace (Z.pred (Z.of_nat (S n))) with (Z.of_nat n) in E2 by lia.
    assert (Hlen : 0 <= idx < Z.of_nat (length instrs)).
    { apply index_Some_range. rewrite Hold. eexists; reflexivity. }
    destruct n as [|n'].
    + simpl in E2. injection E2 as <- <- <-.
      split; [reflexivity|]. split; [reflexivity|].
      split; [apply length_insert|]. split.
      * intros t Ht. replace t with 0 by lia. rewrite !Z.add_0_r.
        rewrite Hi. split; [eexists; reflexivity|].
        apply index_insert_eq. exact Hlen.
      * intros k Hk. apply index_insert_ne; lia.
    + assert (Hidx1 : u8 (idx + 1) = idx + 1) by (apply u8_small; lia).
      rewrite Hidx1 in E2.
      destruct (IH _ _ _ _ _ _ _ E2) as (-> & -> & Hl & Hin & Hout); [lia..|].
      split; [reflexivity|]. split; [f_equal; lia|].
      split; [rewrite Hl; apply length_insert|]. split.
      * intros t Ht. destruct (decide (t = 0)) as [->|Ht0].
        -- rewrite !Z.add_0_r. rewrite Hi. split; [eexists; reflexivity|].
           rewrite Hout by lia. apply index_insert_eq. exact Hlen.
        -- destruct (Hin (t - 1)) as [Hs He]; [lia|].
           replace (Z.succ j0 + (t - 1)) with (j0 + t) in Hs, He by lia.
           replace (idx + 1 + (t - 1)) with (idx + t) in He by lia.
           split; assumption.
      * intros k Hk. rewrite Hout by lia. apply index_insert_ne; lia.
Qed.

(** X20: the copy of a function into the flat instruction array (lines
    48-49) puts its instructions, in order, at the indices from
    [instr_idx] on, leaves every other entry of the array and the whole
    machine as they were, and advances [instr_idx] by the size of the
    function (modulo 256), when the function fits below index 256. *)
Theorem copy_instructions_copies (func : func_t) (idx idx' : Z)
    (instrs instrs' : list inst_t) (m m' : machine) :
  copy_instructions func (instrs, idx) m = Ok (instrs', idx') m' ->
  0 <= idx < 256 -> 0 <= size func -> idx + size func <= 256 ->
  m' = m ∧ idx' = u8 (idx + size func) ∧
  length instrs' = length instrs ∧
  (∀ j, 0 <= j < size func ->
        is_Some (index (instructions func) j) ∧
        index instrs' (idx + j) = index (instructions func) j) ∧
  (∀ k, k < idx ∨ idx + size func <= k -> index instrs' k = index instrs k).
Proof.
  intros E Hidx Hsz Hfit. unfold copy_instructions in E.
  rewrite <- (Z2Nat.id (size func)) in E by exact Hsz.
  destruct (copy_loop func _ _ _ _ _ _ _ _ E) as (Hm & Hi & Hl & Hin & Hout);
    [lia..|].
  rewrite Z2Nat.id in Hi, Hin, Hout by exact Hsz.
  split; [exact Hm|]. split; [exact Hi|]. split; [exact Hl|]. split.
  - intros j Hj. destruct (Hin j Hj) as [Hs He]. split; assumption.
  - exact Hout.
Qed.

(** ** The layout of the functions *)

(** The size of the function at position [p] of the table. *)
Definition size_at (functions : list func_t) (p : Z) : Z :=
  match index functions p with
  | Some f => size f
  | None => 0
  end.

(** The number of instructions that the first [i] iterations of the loop
    of lines 37-52 have laid out: the loop goes through the table from its
    last position down. *)
Fixpoint laid_out (functions : list func_t) (i : nat) : Z :=
  match i with
  | O => 0
  | S i' =>
      laid_out functions i'
      + size_at functions (MAX_FUNCTIONS cfg - Z.of_nat i' - 1)
  end.

Section Layout.

Variable functions : list func_t.

Hypothesis sizes_nonneg : ∀ f, f ∈ functions -> 0 <= size f.

Lemma size_at_nonneg (p : Z) : 0 <= size_at functions p.
Proof.
  unfold size_at. destruct (index functions p) as [f|] eqn:E; [|lia].
  apply sizes_nonneg. apply (index_elem_of _ _ _ E).
Qed.

Lemma laid_out_nonneg (i : nat) : 0 <= laid_out functions i.
Proof.
  induction i as [|i IH]; simpl; [lia|].
  pose proof (size_at_nonneg (MAX_FUNCTIONS cfg - Z.of_nat i - 1)). lia.
Qed.

Lemma laid_out_mono (i n : nat) :
  laid_out functions i <= laid_out functions (i + n).
Proof.
  induction n as [|n IH]; [rewrite Nat.add_0_r; lia|].
  rewrite Nat.add_succ_r. simpl.
  pose proof (size_at_nonneg (MAX_FUNCTIONS cfg - Z.of_nat (i + n) - 1)). lia.
Qed.

(** One iteration of the loop of lines 37-52. *)
Lemma load_function_effect (i : nat) (idx idx' : Z)
    (instrs instrs' : list inst_t) (m m' : machine) :
  load_function cfg functions (Z.of_nat i) (instrs, idx) m
    = Ok (instrs', idx') m' ->
  idx = u8 (laid_out functions i) ->
  laid_out functions (S i) <= 256 ->
  ∃ f, index functions (MAX_FUNCTIONS cfg - Z.of_nat i - 1) = Some f ∧
       idx' = u8 (laid_out functions (S i)) ∧
       length instrs' = length instrs ∧
       (∀ j, 0 <= j < size f ->
             index instrs' (laid_out functions i + j)
             = index (instructions f) j) ∧
       (∀ k, k < laid_out functions i -> index instrs' k = index instrs k) ∧
       (size f = 0 -> m' = m) ∧
       (size f ≠ 0 ->
        (label f ≠ MAX_FUNCTIONS cfg + label f ->
         mem m' (label f) = laid_out functions i) ∧
        mem m' (MAX_FUNCTIONS cfg + label f) = u8 (frame_size f) ∧
        ∀ a, a ≠ label f -> a ≠ MAX_FUNCTIONS cfg + label f ->
             mem m' a = mem m a).
Proof.
  intros E Hidx Hfit. unfold load_function in E. simpl in Hfit.
  unfold size_at in Hfit.
  destruct (index functions _) as [f|] eqn:Hf; [|discriminate].
  pose proof (laid_out_nonneg i) as H0.
  pose proof (sizes_nonneg f (index_elem_of _ _ _ Hf)) as Hsz.
  exists f. split; [reflexivity|].
  assert (Hnext : laid_out functions (S i) = laid_out functions i + size f)
    by (simpl; unfold size_at; rewrite Hf; reflexivity).
  rewrite Hnext.
  case_bool_decide as Hz.
  - injection E as <- <- <-. rewrite Hz, Z.add_0_r.
    split; [exact Hidx|]. split; [reflexivity|].
    split; [intros j Hj; lia|]. split; [reflexivity|].
    split; [reflexivity | contradiction].
  - unfold set_INSTR_ADDR, set_FRAME_SIZE in E.
    apply bind_Ok in E as ([] & m1 & Ew1 & E).
    destruct (index (instructions f) _) as [last|]; [|discriminate].
    case_bool_decide; [discriminate|].
    apply bind_Ok in E as ([instrs1 idx1] & m2 & Ec & E).
    apply bind_Ok in E as ([] & m3 & Ew2 & E).
    injection E as <- <- <-.
    assert (Hsmall : u8 (laid_out functions i) = laid_out functions i)
      by (apply u8_small; lia).
    rewrite Hsmall in Hidx. subst idx.
    unfold copy_instructions in Ec.
    rewrite <- (Z2Nat.id (size f)) in Ec by exact Hsz.
    destruct (copy_loop f _ _ _ _ _ _ _ _ Ec) as (-> & -> & Hl & Hin & Hout);
      [lia..|].
    rewrite Z2Nat.id in Hin, Hout |- * by exact Hsz.
    apply write_ram_Ok in Ew1 as [-> Hr1].
    apply write_ram_Ok in Ew2 as [-> Hr2].
    split; [reflexivity|]. split; [exact Hl|]. split.
    { intros j Hj. destruct (Hin j Hj) as [_ He].
      rewrite He. rewrite Z.add_0_l. reflexivity. }
    split; [intros k Hk; apply Hout; lia|].
    split; [contradiction|]. intros _.
    simpl in Hr2. rewrite length_insert in Hr2.
    split; [|split].
    + intros Hne. rewrite mem_upd_mem_ne by lia.
      unfold mem, upd_mem; simpl. rewrite index_insert_eq by exact Hr1.
      simpl. exact Hsmall.
    + unfold mem, upd_mem; simpl. rewrite index_insert_eq; [reflexivity|].
      rewrite length_insert. exact Hr2.
    + intros a Ha1 Ha2. rewrite !mem_upd_mem_ne by lia. reflexivity.
Qed.

Lemma laid_out_succ (i : nat) (f : func_t) :
  index functions (MAX_FUNCTIONS cfg - Z.of_nat i - 1) = Some f ->
  laid_out functions (S i) = laid_out functions i + size f.
Proof. intros Hf. simpl. unfold size_at. rewrite Hf. reflexivity. Qed.

(** The loop of lines 37-52 from iteration [i0] on, for [n] iterations:
    the flat instruction array. *)
Lemma load_loop_array (n : nat) :
  ∀ (i0 : nat) (st st' : list inst_t * Z) (m m' : machine),
    for_loop (seqZ (Z.of_nat i0) (Z.of_nat n)) (load_function cfg functions)
      st m = Ok st' m' ->
    snd st = u8 (laid_out functions i0) ->
    laid_out functions (i0 + n) <= 256 ->
    snd st' = u8 (laid_out functions (i0 + n)) ∧
    length (fst st') = length (fst st) ∧
    (∀ (i : nat) f, (i0 <= i < i0 + n)%nat ->
       index functions (MAX_FUNCTIONS cfg - Z.of_nat i - 1) = Some f ->
       ∀ j, 0 <= j < size f ->
            index (fst st') (laid_out functions i + j)
            = index (instructions f) j) ∧
    (∀ k, k < laid_out functions i0 -> index (fst st') k = index (fst st) k).
Proof.
  induction n as [|n IH]; intros i0 st st' m m' E Hidx Hfit.
  - rewrite seqZ_nil in E by lia. injection E as <- <-.
    rewrite Nat.add_0_r. split; [exact Hidx|]. split; [reflexivity|].
    split; [intros i f Hi; lia | reflexivity].
  - rewrite seqZ_cons in E by lia. simpl in E.
    apply bind_Ok in E as ([instrs1 idx1] & m1 & E1 & E2).
    destruct st as [instrs idx]. cbn [fst snd] in Hidx.
    pose proof (laid_out_mono (S i0) n) as Hmono.
    replace (S i0 + n)%nat with (i0 + S n)%nat in Hmono by lia.
    destruct (load_function_effect _ _ _ _ _ _ _ E1 Hidx)
      as (f0 & Hf0 & Hidx1 & Hl1 & Hin1 & Hout1 & _); [lia|].
    replace (Z.succ (Z.of_nat i0)) with (Z.of_nat (S i0)) in E2 by lia.
    replace (Z.pred (Z.of_nat (S n))) with (Z.of_nat n) in E2 by lia.
    destruct (IH (S i0) _ _ _ _ E2) as (Hidx' & Hl' & Hin' & Hout').
    { exact Hidx1. }
    { replace (S i0 + n)%nat with (i0 + S n)%nat by lia. exact Hfit. }
    replace (S i0 + n)%nat with (i0 + S n)%nat in Hidx', Hin' by lia.
    cbn [fst snd] in Hl', Hout' |- *.
    split; [exact Hidx'|]. split; [congruence|]. split.
    + intros i f Hi Hf j Hj.
      destruct (decide (i = i0)) as [->|Hne].
      * rewrite Hf0 in Hf. injection Hf as <-.
        rewrite Hout'; [apply Hin1; exact Hj|].
        rewrite (laid_out_succ _ _ Hf0). lia.
      * apply (Hin' i f); [lia | exact Hf | exact Hj].
    + intros k Hk. rewrite Hout'; [apply Hout1; exact Hk|].
      pose proof (laid_out_mono i0 1) as H1.
      replace (i0 + 1)%nat with (S i0) in H1 by lia. lia.
Qed.

(** X21: the bootstrap lays the functions out in the flat instruction
    array one after the other, from the last position of the table down:
    when all of them fit the 256 indices of the program counter, the
    instruction [j] of the function at position [MAX_FUNCTIONS - 1 - i] is
    at the flat index (sum of the sizes of the functions at the positions
    above it) + [j]. *)
Theorem bootstrap_lays_out_code (instrs0 instrs : list inst_t)
    (m0 m : machine) (i : nat) (f : func_t) (j : Z) :
  bootstrap cfg functions instrs0 m0 = Ok instrs m ->
  laid_out functions (Z.to_nat (MAX_FUNCTIONS cfg)) <= 256 ->
  Z.of_nat i < MAX_FUNCTIONS cfg ->
  index functions (MAX_FUNCTIONS cfg - Z.of_nat i - 1) = Some f ->
  0 <= j < size f ->
  index instrs (laid_out functions i + j) = index (instructions f) j ∧
  length instrs = length instrs0.
Proof.
  intros Hb Hfit Hi Hf Hj. unfold bootstrap in Hb.
  apply bind_Ok in Hb as (_ & m1 & _ & Hb).
  apply bind_Ok in Hb as (st & m2 & Hload & Hb).
  apply bind_Ok in Hb as (a & m3 & _ & Hb).
  apply bind_Ok in Hb as (_ & m4 & _ & Hb).
  apply bind_Ok in Hb as (pc & m5 & _ & Hb).
  case_bool_decide; [discriminate|].
  apply bind_Ok in Hb as (fs & m6 & _ & Hb).
  apply bind_Ok in Hb as (_ & m7 & _ & Hb).
  apply bind_Ok in Hb as (sp & m8 & _ & Hb).
  apply bind_Ok in Hb as (_ & m9 & _ & Hb).
  injection Hb as <- _.
  change 0 with (Z.of_nat 0) in Hload at 1.
  rewrite <- (Z2Nat.id (MAX_FUNCTIONS cfg)) in Hload at 1 by lia.
  destruct (load_loop_array _ _ _ _ _ _ Hload) as (_ & Hl & Hin & _).
  { reflexivity. }
  { exact Hfit. }
  split; [|exact Hl].
  apply (Hin i f); [lia | exact Hf | exact Hj].
Qed.

(** The labels of the functions that are not empty index the tables,
    and no two such functions bear the same label. *)
Hypothesis labels_in_table :
  ∀ f, f ∈ functions -> size f ≠ 0 -> 0 <= label f < MAX_FUNCTIONS cfg.
Hypothesis labels_distinct :
  ∀ p q f g, index functions p = Some f -> index functions q = Some g ->
             size f ≠ 0 -> size g ≠ 0 -> label f = label g -> p = q.

(** The loop of lines 37-52 from iteration [i0] on, for [n] iterations:
    the two tables in RAM. *)
Lemma load_loop_ram (n : nat) :
  ∀ (i0 : nat) (st st' : list inst_t * Z) (m m' : machine),
    for_loop (seqZ (Z.of_nat i0) (Z.of_nat n)) (load_function cfg functions)
      st m = Ok st' m' ->
    snd st = u8 (laid_out functions i0) ->
    laid_out functions (i0 + n) <= 256 ->
    (∀ (i : nat) f, (i0 <= i < i0 + n)%nat ->
       index functions (MAX_FUNCTIONS cfg - Z.of_nat i - 1) = Some f ->
       size f ≠ 0 ->
       mem m' (label f) = laid_out functions i ∧
       mem m' (MAX_FUNCTIONS cfg + label f) = u8 (frame_size f)) ∧
    (∀ a,
       (∀ (i : nat) f, (i0 <= i < i0 + n)%nat ->
          index functions (MAX_FUNCTIONS cfg - Z.of_nat i - 1) = Some f ->
          size f ≠ 0 -> a ≠ label f ∧ a ≠ MAX_FUNCTIONS cfg + label f) ->
       mem m' a = mem m a).
Proof.
  induction n as [|n IH]; intros i0 st st' m m' E Hidx Hfit.
  - rewrite seqZ_nil in E by lia. injection E as <- <-.
    split; [intros i f Hi; lia | reflexivity].
  - rewrite seqZ_cons in E by lia. simpl in E.
    apply bind_Ok in E as ([instrs1 idx1] & m1 & E1 & E2).
    destruct st as [instrs idx]. cbn [fst snd] in Hidx.
    pose proof (laid_out_mono (S i0) n) as Hmono.
    replace (S i0 + n)%nat with (i0 + S n)%nat in Hmono by lia.
    destruct (load_function_effect _ _ _ _ _ _ _ E1 Hidx)
      as (f0 & Hf0 & Hidx1 & _ & _ & _ & Hempty & Hfull); [lia|].
    replace (Z.succ (Z.of_nat i0)) with (Z.of_nat (S i0)) in E2 by lia.
    replace (Z.pred (Z.of_nat (S n))) with (Z.of_nat n) in E2 by lia.
    destruct (IH (S i0) _ _ _ _ E2) as (Htab & Hrest).
    { exact Hidx1. }
    { replace (S i0 + n)%nat with (i0 + S n)%nat by lia. exact Hfit. }
    assert (Hother : ∀ (i : nat) f, (S i0 <= i < S i0 + n)%nat ->
              index functions (MAX_FUNCTIONS cfg - Z.of_nat i - 1) = Some f ->
              size f ≠ 0 -> size f0 ≠ 0 ->
              label f0 ≠ label f ∧ label f0 ≠ MAX_FUNCTIONS cfg + label f ∧
              MAX_FUNCTIONS cfg + label f0 ≠ label f ∧
              MAX_FUNCTIONS cfg + label f0 ≠ MAX_FUNCTIONS cfg + label f).
    { intros i f Hi Hf Hsz Hsz0.
      pose proof (labels_in_table f (index_elem_of _ _ _ Hf) Hsz).
      pose proof (labels_in_table f0 (index_elem_of _ _ _ Hf0) Hsz0).
      assert (label f0 ≠ label f).
      { intros Heq. pose proof (labels_distinct _ _ _ _ Hf0 Hf Hsz0 Hsz Heq). lia. }
      lia. }
    split.
    + intros i f Hi Hf Hsz.
      destruct (decide (i = i0)) as [->|Hne].
      * rewrite Hf0 in Hf. injection Hf as <-.
        pose proof (labels_in_table f0 (index_elem_of _ _ _ Hf0) Hsz) as Hlab.
        destruct (Hfull Hsz) as (Haddr & Hfs & _).
        rewrite !Hrest.
        -- split; [apply Haddr; lia | exact Hfs].
        -- intros i f Hi' Hf Hsz'.
           destruct (Hother i f Hi' Hf Hsz' Hsz) as (_ & _ & ? & ?). auto.
        -- intros i f Hi' Hf Hsz'.
           destruct (Hother i f Hi' Hf Hsz' Hsz) as (? & ? & _). auto.
      * apply (Htab i f); [lia | exact Hf | exact Hsz].
    + intros a Ha. rewrite Hrest.
      * destruct (decide (size f0 = 0)) as [Hz|Hnz].
        -- rewrite (Hempty Hz). reflexivity.
        -- destruct (Hfull Hnz) as (_ & _ & Hkeep).
           destruct (Ha i0 f0) as [H1 H2]; [lia | exact Hf0 | exact Hnz|].
           apply Hkeep; assumption.
      * intros i f Hi Hf Hsz. apply (Ha i f); [lia | exact Hf | exact Hsz].
Qed.

(** X22: after the bootstrap the two tables describe the program: for
    every function that is not empty, the entry of its label in the
    function-address table is the flat index of its first instruction and
    the entry in the frame-size table is its frame size, when the labels
    index the tables, are pairwise different, the code fits the 256
    indices and the header of the entry frame lies above the tables. *)
Theorem bootstrap_records_functions (instrs0 instrs : list inst_t)
    (m0 m : machine) (i : nat) (f : func_t) :
  bootstrap cfg functions instrs0 m0 = Ok instrs m ->
  laid_out functions (Z.to_nat (MAX_FUNCTIONS cfg)) <= 256 ->
  Z.of_nat i < MAX_FUNCTIONS cfg ->
  index functions (MAX_FUNCTIONS cfg - Z.of_nat i - 1) = Some f ->
  size f ≠ 0 ->
  MAX_FUNCTIONS cfg + MAX_FUNCTIONS cfg <= sp_of cfg m + 1 ->
  mem m (label f) = laid_out functions i ∧
  frame_size_of cfg m (label f) = u8 (frame_size f).
Proof.
  intros Hb Hfit Hi Hf Hsz Habove. unfold bootstrap in Hb.
  pose proof (labels_in_table f (index_elem_of _ _ _ Hf) Hsz) as Hlab.
  apply bind_Ok in Hb as (_ & m1 & _ & Hb).
  apply bind_Ok in Hb as (st & m2 & Hload & Hb).
  apply bind_Ok in Hb as (a & m3 & Ha & Hb).
  apply bind_Ok in Hb as ([] & m4 & Hpc & Hb).
  apply bind_Ok in Hb as (pc & m5 & Hpc' & Hb).
  case_bool_decide; [discriminate|].
  apply bind_Ok in Hb as (fs & m6 & Hfs & Hb).
  apply bind_Ok in Hb as ([] & m7 & Hsp & Hb).
  apply bind_Ok in Hb as (sp & m8 & Hsp' & Hb).
  apply bind_Ok in Hb as ([] & m9 & Hw & Hb).
  injection Hb as _ <-.
  apply read_ram_Ok in Ha as [-> ->].
  apply write_reg_Ok in Hpc as [-> _].
  apply read_reg_Ok in Hpc' as [-> ->].
  apply read_ram_Ok in Hfs as [-> ->].
  apply write_reg_Ok in Hsp as [-> _].
  apply read_reg_Ok in Hsp' as [-> ->].
  apply write_ram_Ok in Hw as [-> Hr].
  unfold sp_of in Habove. rewrite reg_upd_mem in Habove.
  change 0 with (Z.of_nat 0) in Hload at 1.
  rewrite <- (Z2Nat.id (MAX_FUNCTIONS cfg)) in Hload at 1 by lia.
  destruct (load_loop_ram _ _ _ _ _ _ Hload) as (Htab & _).
  { reflexivity. }
  { exact Hfit. }
  destruct (Htab i f) as [H1 H2]; [lia | exact Hf | exact Hsz|].
  unfold frame_size_of.
  rewrite !mem_upd_mem_ne by lia. rewrite !mem_upd_reg.
  split; assumption.
Qed.

(** X23: the run starts at the first instruction of the entry function:
    after the bootstrap the program counter is the flat index of the first
    instruction of the function that bears the label [MAIN_FUNC], and the
    flat array holds that instruction there. *)
Theorem bootstrap_starts_at_main (instrs0 instrs : list inst_t)
    (m0 m : machine) (i : nat) (f : func_t) :
  slots_ok cfg ->
  bootstrap cfg functions instrs0 m0 = Ok instrs m ->
  laid_out functions (Z.to_nat (MAX_FUNCTIONS cfg)) <= 256 ->
  Z.of_nat i < MAX_FUNCTIONS cfg ->
  index functions (MAX_FUNCTIONS cfg - Z.of_nat i - 1) = Some f ->
  size f ≠ 0 -> label f = MAIN_FUNC cfg ->
  pc_of cfg m = laid_out functions i ∧
  index instrs (pc_of cfg m) = index (instructions f) 0.
Proof.
  intros Hs Hb Hfit Hi Hf Hsz Hmain. unfold bootstrap in Hb.
  pose proof (sizes_nonneg f (index_elem_of _ _ _ Hf)) as Hpos.
  apply bind_Ok in Hb as (_ & m1 & _ & Hb).
  apply bind_Ok in Hb as (st & m2 & Hload & Hb).
  apply bind_Ok in Hb as (a & m3 & Ha & Hb).
  apply bind_Ok in Hb as ([] & m4 & Hpc & Hb).
  apply bind_Ok in Hb as (pc & m5 & Hpc' & Hb).
  case_bool_decide; [discriminate|].
  apply bind_Ok in Hb as (fs & m6 & Hfs & Hb).
  apply bind_Ok in Hb as ([] & m7 & Hsp & Hb).
  apply bind_Ok in Hb as (sp & m8 & Hsp' & Hb).
  apply bind_Ok in Hb as ([] & m9 & Hw & Hb).
  injection Hb as <- <-.
  apply read_ram_Ok in Ha as [-> ->].
  apply write_reg_Ok in Hpc as [-> Hrpc].
  apply read_reg_Ok in Hpc' as [-> ->].
  apply read_ram_Ok in Hfs as [-> ->].
  apply write_reg_Ok in Hsp as [-> _].
  apply read_reg_Ok in Hsp' as [-> ->].
  apply write_ram_Ok in Hw as [-> _].
  change 0 with (Z.of_nat 0) in Hload at 1.
  rewrite <- (Z2Nat.id (MAX_FUNCTIONS cfg)) in Hload at 1 by lia.
  destruct (load_loop_ram _ _ _ _ _ _ Hload) as (Htab & _);
    [reflexivity | exact Hfit |].
  destruct (load_loop_array _ _ _ _ _ _ Hload) as (_ & _ & Hin & _);
    [reflexivity | exact Hfit |].
  destruct (Htab i f) as [H1 _]; [lia | exact Hf | exact Hsz|].
  rewrite Hmain in H1.
  pose proof (laid_out_nonneg i) as H0.
  pose proof (laid_out_mono (S i) (Z.to_nat (MAX_FUNCTIONS cfg) - S i)) as Hmono.
  replace (S i + (Z.to_nat (MAX_FUNCTIONS cfg) - S i))%nat
    with (Z.to_nat (MAX_FUNCTIONS cfg)) in Hmono by lia.
  rewrite (laid_out_succ _ _ Hf) in Hmono.
  open_slots Hs.
  match goal with
  | |- pc_of cfg ?mb = _ ∧ _ =>
      assert (Hpcv : pc_of cfg mb = laid_out functions i)
  end.
  { unfold pc_of. rewrite reg_upd_mem. rewrite reg_upd_reg_ne by lia.
    unfold reg, upd_reg; simpl. rewrite index_insert_eq by exact Hrpc. simpl.
    rewrite H1. apply u8_small. lia. }
  split; [exact Hpcv|]. rewrite Hpcv.
  rewrite <- (Z.add_0_r (laid_out functions i)).
  apply (Hin i f); [lia | exact Hf | lia].
Qed.

End Layout.

End More.

(** * Programs that respect the frames *)

(** An instruction other than [CAL] and [RET]. *)
Definition plain (inst : inst_t) : Prop :=
  opcode inst ≠ CAL ∧ opcode inst ≠ RET.

(** A plain instruction that writes neither to RAM nor to the register of
    the stack pointer. *)
Definition quiet (cfg : config) (inst : inst_t) : Prop :=
  plain inst ∧ destination inst ≠ Some (SP_REG cfg) ∧
  ¬ may_write_ram inst.

#[global] Instance in_ram_dec (arg : arg_t) : Decision (in_ram arg).
Proof. unfold in_ram. apply _. Defined.

#[global] Instance may_write_ram_dec (inst : inst_t) :
  Decision (may_write_ram inst).
Proof. unfold may_write_ram. destruct (opcode inst); apply _. Defined.

#[global] Instance plain_dec (inst : inst_t) : Decision (plain inst).
Proof. unfold plain. apply _. Defined.

#[global] Instance quiet_dec (cfg : config) (inst : inst_t) :
  Decision (quiet cfg inst).
Proof. unfold quiet. apply _. Defined.

(** [n] turns of the loop of line 63, each of which fetches an instruction
    that [ok] accepts and goes on; [None] when one of them does not. *)
Fixpoint steps_while (cfg : config) (ok : inst_t -> bool) (n : nat)
    (instrs : list inst_t) (m : machine) : option machine :=
  match n with
  | O => Some m
  | S n' =>
      match index instrs (pc_of cfg m) with
      | Some inst =>
          if ok inst then
            match step cfg instrs m with
            | Ok r m1 =>
                if bool_decide (r = 0) then steps_while cfg ok n' instrs m1
                else None
            | _ => None
            end
          else None
      | None => None
      end
  end.

Section Respect.

Variable cfg : config.

Lemma quiet_keeps_ram (inst : inst_t) (m m' : machine) (r : Z) :
  ¬ may_write_ram inst ->
  run_instruction cfg inst m = Ok r m' -> ram m' = ram m.
Proof.
  intros Hw.
  enough (unchanged ram (run_instruction cfg inst)) as H
    by (intros E; apply (H _ _ _ E)).
  pose proof (ram_arg_value cfg). unfold may_write_ram in Hw.
  unfold run_instruction, STACK_LOC, STACK_PTR, set_STACK_PTR, set_PROG_CTR.
  destruct (opcode inst); try tauto; unchanged_tac; auto using ram_mov.
Qed.

(** The first condition of a stretch, from the instruction: a plain
    instruction whose destination is not the register of the stack
    pointer leaves the stack pointer alone. *)
Lemma level_plain_dest (instrs : list inst_t) (live : list Z)
    (m m1 m2 : machine) (inst : inst_t) :
  slots_ok cfg -> wf m ->
  index instrs (pc_of cfg m) = Some inst -> plain inst ->
  destination inst ≠ Some (SP_REG cfg) ->
  step cfg instrs m = Ok 0 m1 ->
  Forall (fun a => mem m1 a = mem m a) live ->
  level cfg instrs live m1 m2 ->
  level cfg instrs live m m2.
Proof.
  intros Hs Hm Hi [Hc Hr] Hd Hst Hlive Hl.
  apply (level_plain cfg instrs live m m1 m2 inst); try assumption.
  rewrite (step_fetch cfg _ _ _ Hs Hm Hi) in Hst.
  rewrite (plain_keeps_stack_pointer cfg _ _ _ _ Hs Hc Hr Hd Hst).
  apply sp_of_fetched. exact Hs.
Qed.

(** Both conditions, from the instruction: a quiet instruction changes
    neither the stack pointer nor any saved link. *)
Lemma level_plain_quiet (instrs : list inst_t) (live : list Z)
    (m m1 m2 : machine) (inst : inst_t) :
  slots_ok cfg -> wf m ->
  index instrs (pc_of cfg m) = Some inst -> quiet cfg inst ->
  step cfg instrs m = Ok 0 m1 ->
  level cfg instrs live m1 m2 ->
  level cfg instrs live m m2.
Proof.
  intros Hs Hm Hi (Hp & Hd & Hw) Hst Hl.
  apply (level_plain_dest instrs live m m1 m2 inst); try assumption.
  rewrite (step_fetch cfg _ _ _ Hs Hm Hi) in Hst.
  apply Forall_forall. intros a _. unfold mem.
  rewrite (quiet_keeps_ram _ _ _ _ Hw Hst). reflexivity.
Qed.

(** The condition on a nested call, from the layout of the stack: when the
    frame of the callee fits ([frame_size + 4 <= STACK_MAX <= 255]), the
    call writes above the header of the caller, so it overwrites no saved
    link at or below it. *)
Lemma level_call_above (instrs : list inst_t) (live : list Z)
    (m m1 m2 m3 m4 : machine) (c r : inst_t) :
  slots_ok cfg -> wf m ->
  index instrs (pc_of cfg m) = Some c -> opcode c = CAL ->
  step cfg instrs m = Ok 0 m1 ->
  frame_size_of cfg m (u8 (value (arg1 c))) + 4 <= STACK_MAX cfg <= 255 ->
  Forall (fun a => a <= sp_of cfg m + 2) live ->
  level cfg instrs (u8 (sp_of cfg m1 + 1) :: live) m1 m2 ->
  index instrs (pc_of cfg m2) = Some r -> opcode r = RET ->
  step cfg instrs m2 = Ok 0 m3 ->
  level cfg instrs live m3 m4 ->
  level cfg instrs live m m4.
Proof.
  intros Hs Hm Hi Hc Hst Hfit Hlow Hl1 Hi2 Hr Hst2 Hl2.
  apply (level_call cfg instrs live m m1 m2 m3 m4 c r); try assumption.
  rewrite (step_fetch cfg _ _ _ Hs Hm Hi) in Hst.
  destruct (run_CAL cfg _ _ _ _ Hc Hst) as (_ & _ & Hcall).
  pose proof (wf_fetched cfg m Hm) as Hmf.
  destruct (call_function_Ok cfg _ _ _ Hs Hmf (u8_byte _) Hcall)
    as (_ & Hthr & ->).
  set (l := u8 (value (arg1 c))) in *.
  destruct (check_passed_no_wrap cfg l (fetched cfg m) Hmf)
    as (H0 & Hf & Hbound);
    [ change (frame_size_of cfg (fetched cfg m) l) with (frame_size_of cfg m l);
      lia
    | exact Hthr |].
  rewrite sp_of_fetched in H0, Hbound by exact Hs.
  change (frame_size_of cfg (fetched cfg m) l) with (frame_size_of cfg m l)
    in Hf, Hbound.
  apply Forall_forall. intros a Ha.
  rewrite Forall_forall in Hlow. specialize (Hlow a Ha).
  rewrite mem_pushed_other; [reflexivity | assumption..| |];
    rewrite sp_of_pushed by assumption;
    rewrite sp_of_fetched by exact Hs;
    change (frame_size_of cfg (fetched cfg m) l) with (frame_size_of cfg m l);
    rewrite (u8_small (sp_of cfg m + 2 + _)) by lia;
    rewrite u8_small by lia; lia.
Qed.

(** A run of quiet instructions is a stretch that respects the frames,
    whatever frames are live. *)
Lemma quiet_steps_level (instrs : list inst_t) (live : list Z) (n : nat) :
  slots_ok cfg ->
  ∀ m m', wf m ->
    steps_while cfg (fun i => bool_decide (quiet cfg i)) n instrs m = Some m' ->
    level cfg instrs live m m'.
Proof.
  intros Hs. induction n as [|n IH]; intros m m' Hm E; simpl in E.
  - injection E as <-. apply level_done.
  - destruct (index instrs (pc_of cfg m)) as [inst|] eqn:Hi; [|discriminate].
    case_bool_decide as Hq; [|discriminate].
    destruct (step cfg instrs m) as [r m1| |] eqn:Hst; try discriminate.
    case_bool_decide as Hr0; [|discriminate]. subst r.
    apply (level_plain_quiet instrs live m m1 m' inst); try assumption.
    apply IH; [|exact E].
    eapply keeps_wf_Ok; [apply keeps_wf_step|..]; eassumption.
Qed.

(** Call and return balance for a function that runs only quiet
    instructions: the conditions of a stretch hold for it by its
    instructions alone. *)
Lemma quiet_call_return_balance (instrs : list inst_t) (n : nat)
    (m m1 m2 : machine) (c r : inst_t) :
  slots_ok cfg -> wf m ->
  index instrs (pc_of cfg m) = Some c -> opcode c = CAL ->
  step cfg instrs m = Ok 0 m1 ->
  steps_while cfg (fun i => bool_decide (quiet cfg i)) n instrs m1 = Some m2 ->
  index instrs (pc_of cfg m2) = Some r -> opcode r = RET ->
  sp_of cfg m ≠ 0 ->
  ∃ m3, step cfg instrs m2 = Ok 0 m3 ∧ sp_of cfg m3 = sp_of cfg m.
Proof.
  intros Hs Hm Hi Hc Hst Hq Hi2 Hr Hsp0.
  destruct (step_CAL cfg _ _ _ _ _ Hs Hm Hi Hc Hst) as [Hm1 Hlink].
  pose proof (quiet_steps_level instrs [u8 (sp_of cfg m1 + 1)] n Hs
                m1 m2 Hm1 Hq) as Hl.
  destruct (level_balance cfg _ _ _ _ Hs Hl Hm1) as (Hm2 & Hsp2 & Hmem2).
  assert (Hlink2 : link_of cfg m2 = sp_of cfg m).
  { unfold link_of. rewrite Hsp2.
    rewrite (Hmem2 (u8 (sp_of cfg m1 + 1))) by (left).
    exact Hlink. }
  rewrite (step_RET cfg _ _ _ Hs Hm2 Hi2 Hr).
  rewrite bool_decide_eq_false_2 by congruence.
  eexists. split; [reflexivity|].
  rewrite sp_of_returned by (try apply wf_fetched; assumption).
  rewrite link_of_fetched by assumption. exact Hlink2.
Qed.

End Respect.

(** ** More examples *)

(** [NOT REG 0], [EQU REG 0], [PRINT REG 0]. *)
Definition sample_not : inst_t :=
  {| opcode := NOT; arg1 := {| type := REG; value := 0 |};
     arg2 := {| type := VAL; value := 0 |} |}.
Definition sample_equ : inst_t :=
  {| opcode := EQU; arg1 := {| type := REG; value := 0 |};
     arg2 := {| type := VAL; value := 0 |} |}.
Definition sample_print : inst_t :=
  {| opcode := PRINT; arg1 := {| type := REG; value := 0 |};
     arg2 := {| type := VAL; value := 0 |} |}.

(** [MOV REG 2, STACK 0] and [MOV STACK 1, REG 0]. *)
Definition sample_load : inst_t :=
  {| opcode := MOV; arg1 := {| type := REG; value := 2 |};
     arg2 := {| type := STACK; value := 0 |} |}.
Definition sample_store : inst_t :=
  {| opcode := MOV; arg1 := {| type := STACK; value := 1 |};
     arg2 := {| type := REG; value := 0 |} |}.

Definition empty_function : func_t :=
  {| label := 0; frame_size := 0; size := 0; instructions := [] |}.

(** The table of [sample_program]: the entry function at position 0 and
    function 1, with one local, at position 1. *)
Definition sample_main : func_t :=
  {| label := 0; frame_size := 0; size := 3;
     instructions := take 3 sample_program |}.
Definition sample_callee : func_t :=
  {| label := 1; frame_size := 1; size := 2;
     instructions := drop 3 sample_program |}.
Definition sample_table : list func_t :=
  sample_main :: sample_callee :: replicate 6 empty_function.

(** A table whose entry function returns at once, and a table without
    functions. *)
Definition sample_idle : list func_t :=
  {| label := 0; frame_size := 0; size := 1; instructions := [sample_ret] |}
  :: replicate 7 empty_function.
Definition sample_no_functions : list func_t := replicate 8 empty_function.

(** The flat instruction array before the bootstrap fills it. *)
Definition sample_array : list inst_t := replicate 256 sample_ret.

(** The flat array and the machine that the bootstrap leaves, whatever
    its outcome. *)
Definition booted (functions : list func_t) : list inst_t * machine :=
  match bootstrap sample_config functions sample_array sample_blank with
  | Ok instrs m => (instrs, m)
  | Fatal _ _ m => (sample_array, m)
  | Undefined => (sample_array, sample_blank)
  end.

Lemma sample_blank_wf : wf sample_blank.
Proof. by_compute. Qed.

Lemma sample_table_sizes : ∀ f, f ∈ sample_table -> 0 <= size f.
Proof. apply Forall_forall. by_compute. Qed.

Lemma sample_table_labels :
  ∀ f, f ∈ sample_table -> size f ≠ 0 ->
       0 <= label f < MAX_FUNCTIONS sample_config.
Proof.
  apply (Forall_forall (fun f => size f ≠ 0 ->
                                 0 <= label f < MAX_FUNCTIONS sample_config)).
  by_compute.
Qed.

Lemma sample_table_nonempty (p : Z) (f : func_t) :
  index sample_table p = Some f -> size f ≠ 0 ->
  (p = 0 ∧ f = sample_main) ∨ (p = 1 ∧ f = sample_callee).
Proof.
  intros Hp Hsz.
  assert (Hr : 0 <= p < 8).
  { apply (index_Some_range sample_table). rewrite Hp. eexists; reflexivity. }
  assert (Hc : p = 0 ∨ p = 1 ∨ p = 2 ∨ p = 3 ∨ p = 4 ∨ p = 5 ∨ p = 6 ∨ p = 7)
    by lia.
  destruct Hc as [->|[->|[->|[->|[->|[->|[->| ->]]]]]]];
    vm_compute in Hp; injection Hp as <-;
    first [ left; split; reflexivity | right; split; reflexivity
          | exfalso; apply Hsz; reflexivity ].
Qed.

Lemma sample_table_distinct :
  ∀ p q f g, index sample_table p = Some f -> index sample_table q = Some g ->
             size f ≠ 0 -> size g ≠ 0 -> label f = label g -> p = q.
Proof.
  intros p q f g Hp Hq Hf Hg Hl.
  destruct (sample_table_nonempty p f Hp Hf) as [[-> ->]|[-> ->]];
    destruct (sample_table_nonempty q g Hq Hg) as [[-> ->]|[-> ->]];
    first [reflexivity | discriminate Hl].
Qed.

Lemma arg_value_read_only_witness :
  ∃ m', arg_value sample_config {| type := PTR; value := 0 |} sample_operands
        = Ok 9 m' ∧ ram m' = ram sample_operands.
Proof.
  eexists. split; [vm_compute; reflexivity|].
  refine (proj1 (arg_value_read_only sample_config
                   {| type := PTR; value := 0 |} sample_operands _ 9 _)).
  vm_compute. reflexivity.
Defined.

Lemma print_appends_value_witness :
  ∃ m', run_instruction sample_config sample_print sample_operands = Ok 0 m' ∧
        stdout m' = stdout sample_operands ++ [200].
Proof.
  destruct (print_appends_value sample_config sample_print sample_operands
              sample_operands 200 sample_operands_wf eq_refl)
    as (m' & H1 & H2 & _).
  - vm_compute. reflexivity.
  - exists m'. split; assumption.
Defined.

Lemma only_print_writes_output_witness :
  ∃ m', run_instruction sample_config sample_add sample_operands = Ok 0 m' ∧
        stdout m' = stdout sample_operands.
Proof.
  eexists. split; [vm_compute; reflexivity|].
  refine (only_print_writes_output sample_config sample_add sample_operands
            _ 0 _ _).
  - simpl. discriminate.
  - vm_compute. reflexivity.
Defined.

Lemma register_instructions_keep_ram_witness :
  ∃ m', run_instruction sample_config sample_add sample_operands = Ok 0 m' ∧
        ram m' = ram sample_operands.
Proof.
  eexists. split; [vm_compute; reflexivity|].
  refine (register_instructions_keep_ram sample_config sample_add
            sample_operands _ 0 _ _).
  - unfold may_write_ram. simpl. tauto.
  - vm_compute. reflexivity.
Defined.

Lemma aborts_only_on_violation_or_overflow_witness :
  opcode sample_call = CAL ∧ type (arg1 sample_call) = VAL.
Proof.
  destruct (aborts_only_on_violation_or_overflow sample_config sample_call
              sample_full (upd_reg sample_full 4 250)
              "Stack overflow detected when trying to call function %d" [1])
    as [(Hv & _)|(H1 & H2 & _)].
  - vm_compute. reflexivity.
  - exfalso. exact (Hv eq_refl).
  - split; assumption.
Defined.

Lemma not_not_restores_witness :
  ∃ m1, run_instruction sample_config sample_not sample_operands = Ok 0 m1 ∧
        reg m1 0 = 255 - reg sample_operands 0 ∧
        run_instruction sample_config sample_not m1 = Ok 0 sample_operands.
Proof.
  refine (not_not_restores sample_config sample_not sample_operands
            sample_operands_wf eq_refl eq_refl _).
  by_compute.
Defined.

Lemma equ_tests_zero_witness :
  ∃ m1 m2,
    run_instruction sample_config sample_equ sample_operands = Ok 0 m1 ∧
    reg m1 0 = 0 ∧ run_instruction sample_config sample_equ m1 = Ok 0 m2 ∧
    reg m2 0 = 1.
Proof.
  destruct (equ_tests_zero sample_config sample_equ sample_operands
              sample_operands_wf eq_refl eq_refl)
    as (m1 & m2 & H1 & H2 & _ & _ & _ & H3 & H4).
  - by_compute.
  - exists m1, m2. repeat split; assumption.
Defined.

Lemma add_changes_only_destination_witness :
  ∃ m', run_instruction sample_config sample_add sample_operands = Ok 0 m' ∧
        ram m' = ram sample_operands ∧ reg m' 1 = reg sample_operands 1.
Proof.
  destruct (add_changes_only_destination sample_config sample_add
              sample_operands sample_operands_wf eq_refl eq_refl eq_refl)
    as (m' & H1 & _ & _ & H2 & _ & H3).
  - by_compute.
  - by_compute.
  - exists m'. split; [exact H1|]. split; [exact H2|].
    apply H3. simpl. discriminate.
Defined.

Lemma mov_register_round_trip_witness :
  ∃ m', run_instruction sample_config sample_load sample_operands = Ok 0 m' ∧
        arg_value sample_config (arg1 sample_load) m' = Ok 40 m'.
Proof.
  assert (E : ∃ m1, arg_value sample_config (arg2 sample_load) sample_operands
                    = Ok 40 m1) by (eexists; vm_compute; reflexivity).
  destruct E as [m1 E].
  refine (mov_register_round_trip sample_config sample_load sample_operands
            m1 40 sample_operands_wf eq_refl eq_refl _ E).
  by_compute.
Defined.

Lemma mov_stack_round_trip_witness :
  ∃ m' m'', run_instruction sample_config sample_store sample_operands
            = Ok 0 m' ∧
            arg_value sample_config (arg1 sample_store) m' = Ok 200 m''.
Proof.
  refine (mov_stack_round_trip sample_config sample_store sample_operands
            sample_operands 200 sample_slots_ok sample_operands_wf
            eq_refl eq_refl _).
  vm_compute. reflexivity.
Defined.

Lemma ref_of_pointer_is_mov_of_symbol_witness :
  run_instruction sample_config
    {| opcode := REF; arg1 := {| type := REG; value := 1 |};
       arg2 := {| type := PTR; value := 0 |} |} sample_operands
  = run_instruction sample_config
      {| opcode := MOV; arg1 := {| type := REG; value := 1 |};
         arg2 := {| type := STACK; value := 0 |} |} sample_operands.
Proof.
  refine (ref_of_pointer_is_mov_of_symbol sample_config
            {| type := REG; value := 1 |} 0 sample_operands
            sample_slots_ok sample_operands_wf _).
  simpl. discriminate.
Defined.

Lemma store_through_reference_witness :
  ∃ m1 m2 m3,
    run_instruction sample_config
      {| opcode := REF; arg1 := {| type := STACK; value := 1 |};
         arg2 := {| type := STACK; value := 0 |} |} sample_operands = Ok 0 m1 ∧
    run_instruction sample_config
      {| opcode := MOV; arg1 := {| type := PTR; value := 1 |};
         arg2 := {| type := VAL; value := 9 |} |} m1 = Ok 0 m2 ∧
    arg_value sample_config {| type := STACK; value := 0 |} m2 = Ok (u8 9) m3.
Proof.
  exact (store_through_reference sample_config 0 1 9 sample_operands
           sample_slots_ok sample_operands_wf).
Defined.

Lemma call_frame_effect_witness :
  stdout (pushed sample_config 1 sample_machine) = stdout sample_machine.
Proof.
  refine (proj1 (call_frame_effect sample_config sample_call sample_machine
                   (pushed sample_config 1 sample_machine) 0
                   sample_slots_ok sample_machine_wf eq_refl _)).
  vm_compute. reflexivity.
Defined.

Lemma call_jumps_to_entry_witness :
  pc_of sample_config (pushed sample_config 1 sample_machine) = 3.
Proof.
  refine (call_jumps_to_entry sample_config sample_call sample_machine
            (pushed sample_config 1 sample_machine) 0
            sample_slots_ok sample_machine_wf eq_refl _ _ _).
  - vm_compute. reflexivity.
  - by_compute.
  - by_compute.
Defined.

Lemma call_then_return_restores_witness :
  ∃ m2, run_instruction sample_config sample_ret
          (pushed sample_config 1 sample_machine) = Ok 0 m2 ∧
        sp_of sample_config m2 = sp_of sample_config sample_machine ∧
        pc_of sample_config m2 = pc_of sample_config sample_machine.
Proof.
  destruct (call_then_return_restores sample_config sample_call sample_ret
              sample_machine (pushed sample_config 1 sample_machine) 0
              sample_slots_ok sample_machine_wf eq_refl eq_refl)
    as (m2 & H1 & H2 & H3 & _).
  - vm_compute. reflexivity.
  - by_compute.
  - exists m2. repeat split; assumption.
Defined.

Lemma booted_table :
  bootstrap sample_config sample_table sample_array sample_blank
  = Ok (fst (booted sample_table)) (snd (booted sample_table)).
Proof. vm_compute. reflexivity. Qed.

Lemma bootstrap_checks_functions_witness :
  ∃ func, index sample_table 1 = Some func ∧
          (size func ≠ 0 ->
           ∃ last, index (instructions func) (size func - 1) = Some last ∧
                   opcode last = RET).
Proof.
  refine (bootstrap_checks_functions sample_config sample_table sample_array
            (fst (booted sample_table)) sample_blank
            (snd (booted sample_table)) 1 _ _).
  - vm_compute. reflexivity.
  - by_compute.
Defined.

Lemma bootstrap_requires_main_witness :
  match bootstrap sample_config sample_no_functions sample_array sample_blank with
  | Ok _ _ => False
  | Fatal fmt _ _ =>
      fmt = "No main function found"%string ∨
      fmt = "No return instruction found at end of function %d"%string
  | Undefined => True
  end.
Proof.
  refine (bootstrap_requires_main sample_config sample_no_functions
            sample_array sample_blank _ _ _).
  - by_compute.
  - reflexivity.
  - apply (Forall_forall (fun func => size func ≠ 0 ->
             0 <= label func ∧ label func ≠ MAIN_FUNC sample_config)).
    by_compute.
Defined.

Lemma entry_return_ends_run_witness :
  ∃ m', vm_x2017 sample_config 1 sample_idle sample_array sample_blank
        = Some (Ok tt m') ∧
        stdout m' = stdout sample_blank ∧ ram m' = ram (snd (booted sample_idle)).
Proof.
  refine (entry_return_ends_run sample_config 0 sample_idle sample_array
            (fst (booted sample_idle)) sample_blank (snd (booted sample_idle))
            sample_ret sample_slots_ok sample_blank_wf _ _ eq_refl).
  - vm_compute. reflexivity.
  - vm_compute. reflexivity.
Defined.

Lemma copy_instructions_copies_witness :
  ∃ instrs', copy_instructions sample_callee (sample_array, 4) sample_blank
             = Ok (instrs', 6) sample_blank ∧
             index instrs' (4 + 0) = index (instructions sample_callee) 0.
Proof.
  eexists. split; [vm_compute; reflexivity|].
  refine (proj2 (proj1 (proj2 (proj2 (proj2
            (copy_instructions_copies sample_callee 4 6 sample_array _
               sample_blank sample_blank _ _ _ _)))) 0 _)).
  - vm_compute. reflexivity.
  - lia.
  - by_compute.
  - by_compute.
  - by_compute.
Defined.

Lemma bootstrap_lays_out_code_witness :
  index (fst (booted sample_table)) (2 + 0) = index (instructions sample_main) 0.
Proof.
  refine (proj1 (bootstrap_lays_out_code sample_config sample_table
                   sample_table_sizes sample_array (fst (booted sample_table))
                   sample_blank (snd (booted sample_table)) 7 sample_main 0
                   _ _ _ _ _)).
  - vm_compute. reflexivity.
  - by_compute.
  - by_compute.
  - vm_compute. reflexivity.
  - by_compute.
Defined.

Lemma bootstrap_records_functions_witness :
  mem (snd (booted sample_table)) (label sample_callee) = 0 ∧
  frame_size_of sample_config (snd (booted sample_table)) (label sample_callee)
  = u8 (frame_size sample_callee).
Proof.
  refine (bootstrap_records_functions sample_config sample_table
            sample_table_sizes sample_table_labels sample_table_distinct
            sample_array (fst (booted sample_table)) sample_blank
            (snd (booted sample_table)) 6 sample_callee _ _ _ _ _ _).
  - vm_compute. reflexivity.
  - by_compute.
  - by_compute.
  - vm_compute. reflexivity.
  - simpl. discriminate.
  - by_compute.
Defined.

Lemma bootstrap_starts_at_main_witness :
  pc_of sample_config (snd (booted sample_table)) = 2 ∧
  index (fst (booted sample_table)) (pc_of sample_config (snd (booted sample_table)))
  = index (instructions sample_main) 0.
Proof.
  refine (bootstrap_starts_at_main sample_config sample_table
            sample_table_sizes sample_table_labels sample_table_distinct
            sample_array (fst (booted sample_table)) sample_blank
            (snd (booted sample_table)) 7 sample_main
            sample_slots_ok _ _ _ _ _ eq_refl).
  - vm_compute. reflexivity.
  - by_compute.
  - by_compute.
  - vm_compute. reflexivity.
  - simpl. discriminate.
Defined.

(** The program of [sample_table], bootstrap and run: it prints the 0 of
    register 0 and ends, the callee having stored 7 in its local. *)
Example sample_table_runs :
  ∃ m, vm_x2017 sample_config 10 sample_table sample_array sample_blank
       = Some (Ok tt m) ∧ stdout m = [0] ∧ mem m 19 = 7.
Proof. eexists. split; [|split]; vm_compute; reflexivity. Qed.

(** ** A callee that overwrites its saved link *)

(** Function 1 takes the address of its local, adds 1 to it, which gives
    the address of the saved link of its own frame, and stores 99 through
    that pointer before it returns.  Every symbol it names is its local 0,
    and no operand violates a constraint. *)
Definition sample_clobber_callee : func_t :=
  {| label := 1; frame_size := 1; size := 6;
     instructions :=
       [ {| opcode := REF; arg1 := {| type := REG; value := 0 |};
            arg2 := {| type := STACK; value := 0 |} |};
         {| opcode := MOV; arg1 := {| type := REG; value := 1 |};
            arg2 := {| type := VAL; value := 1 |} |};
         sample_add;
         {| opcode := MOV; arg1 := {| type := STACK; value := 0 |};
            arg2 := {| type := REG; value := 0 |} |};
         {| opcode := MOV; arg1 := {| type := PTR; value := 0 |};
            arg2 := {| type := VAL; value := 99 |} |};
         sample_ret ] |}.

(** The entry function calls function 1 and returns. *)
Definition sample_clobber_main : func_t :=
  {| label := 0; frame_size := 0; size := 2;
     instructions := [sample_call; sample_ret] |}.

Definition sample_clobber : list func_t :=
  sample_clobber_main :: sample_clobber_callee :: replicate 6 empty_function.

(** The same table with a callee that only computes in registers. *)
Definition sample_quiet_callee : func_t :=
  {| label := 1; frame_size := 1; size := 3;
     instructions :=
       [ {| opcode := MOV; arg1 := {| type := REG; value := 1 |};
            arg2 := {| type := VAL; value := 1 |} |};
         sample_add;
         sample_ret ] |}.

Definition sample_quiet : list func_t :=
  sample_clobber_main :: sample_quiet_callee :: replicate 6 empty_function.

(** C4 as the specification states it fails.  The bootstrap accepts
    [sample_clobber] and no instruction of it violates an operand
    constraint.  The entry function calls function 1 with the stack
    pointer at 16; the callee runs five instructions other than [CAL] and
    [RET], none of which has the stack pointer as its destination, and the
    stack pointer is 19 before and after them; its [RET] pops the frame and
    goes back to the instruction after the [CAL]; and the stack pointer is
    then 99, the byte that the callee stored over its saved link at address
    20, not 16. *)
Lemma call_return_unbalanced :
  ∃ instrs m m1 m2 m3,
    bootstrap sample_config sample_clobber sample_array sample_blank
      = Ok instrs m ∧
    Forall (fun i => ¬ violates_constraint i) instrs ∧
    index instrs (pc_of sample_config m) = Some sample_call ∧
    step sample_config instrs m = Ok 0 m1 ∧
    steps_while sample_config
      (fun i => bool_decide
                  (plain i ∧ destination i ≠ Some (SP_REG sample_config)))
      5 instrs m1 = Some m2 ∧
    index instrs (pc_of sample_config m2) = Some sample_ret ∧
    step sample_config instrs m2 = Ok 0 m3 ∧
    pc_of sample_config m3 = pc_of sample_config m + 1 ∧
    sp_of sample_config m = 16 ∧
    sp_of sample_config m1 = 19 ∧ mem m1 20 = 16 ∧
    sp_of sample_config m2 = 19 ∧ mem m2 20 = 99 ∧
    sp_of sample_config m3 = 99.
Proof.
  do 5 eexists.
  split; [vm_compute; reflexivity|].
  split; [by_compute|].
  split; [vm_compute; reflexivity|].
  split; [vm_compute; reflexivity|].
  split; [vm_compute; reflexivity|].
  split; [vm_compute; reflexivity|].
  split; [vm_compute; reflexivity|].
  split; [vm_compute; reflexivity|].
  split; [vm_compute; reflexivity|].
  split; [vm_compute; reflexivity|].
  split; [vm_compute; reflexivity|].
  split; [vm_compute; reflexivity|].
  split; vm_compute; reflexivity.
Qed.

(** The whole run of [sample_clobber] ends without an error, with the
    stack pointer at 99. *)
Example sample_clobber_runs :
  ∃ m, vm_x2017 sample_config 20 sample_clobber sample_array sample_blank
       = Some (Ok tt m) ∧ sp_of sample_config m = 99.
Proof. eexists. split; vm_compute; reflexivity. Qed.

(** [sample_quiet] is in the class of [quiet_call_return_balance]: the call
    of its entry function and the return of its callee balance. *)
Example sample_quiet_balance :
  ∃ m1 m2 m3,
    step sample_config (booted sample_quiet).1 (booted sample_quiet).2
      = Ok 0 m1 ∧
    steps_while sample_config (fun i => bool_decide (quiet sample_config i))
      2 (booted sample_quiet).1 m1 = Some m2 ∧
    step sample_config (booted sample_quiet).1 m2 = Ok 0 m3 ∧
    sp_of sample_config m3 = 16.
Proof.
  pose (instrs := (booted sample_quiet).1).
  pose (m := (booted sample_quiet).2).
  pose (m1 := after_step sample_config instrs m).
  pose (m2 := after_step sample_config instrs
                (after_step sample_config instrs m1)).
  destruct (quiet_call_return_balance sample_config instrs 2 m m1 m2
              sample_call sample_ret sample_slots_ok)
    as (m3 & Hst & Hsp).
  - by_compute.
  - vm_compute. reflexivity.
  - reflexivity.
  - vm_compute. reflexivity.
  - vm_compute. reflexivity.
  - vm_compute. reflexivity.
  - reflexivity.
  - vm_compute. discriminate.
  - exists m1, m2, m3.
    split; [vm_compute; reflexivity|].
    split; [vm_compute; reflexivity|].
    split; [exact Hst|]. rewrite Hsp. vm_compute. reflexivity.
Qed.
